(** * go-exif-gps-extract: GPS coordinates of the images of a directory tree

    A shallow embedding of [main.go].  Go strings are byte strings, modelled
    as [string] (one [ascii] per byte); [uint32] is [N]; a Go [float32] is a
    [spec_float] of precision 24 and maximal exponent 128; the process
    (log, accumulated records, files created, panics and [os.Exit]) is a
    state monad with three outcomes. *)

From Stdlib Require Import ZArith NArith List String Ascii Bool Lia.
From Stdlib Require Import DecimalString SpecFloat.
Import ListNotations.

Local Open Scope list_scope.
Local Open Scope string_scope.

(** ** Go values used by the program *)

Module Go.

(** [strconv.Itoa]: the decimal rendering of an [int]. *)
Definition Itoa (z : Z) : string := NilZero.string_of_int (Z.to_int z).

(** [strings.HasSuffix(s, suffix)]:
    [len(s) >= len(suffix) && s[len(s)-len(suffix):] == suffix]. *)
Definition HasSuffix (s suffix : string) : bool :=
  (length suffix <=? length s)%nat &&
  String.eqb (substring (length s - length suffix) (length suffix) s) suffix.

(** Go [error] values the program meets.  [ErrNoExif] is go-exif's
    sentinel, [SkipDir] and [SkipAll] are the walk's control values,
    [PathError] is what the operating system calls return and
    [Errorf] what [fmt.Errorf] builds. *)
Inductive error : Type :=
| ErrNoExif
| SkipDir
| SkipAll
| PathError (msg : string)
| Errorf (msg : string).

(** The [Error()] method, which [%s] and [log.Println] print. *)
Definition Error (e : error) : string :=
  match e with
  | ErrNoExif => "no exif data"
  | SkipDir => "skip this directory"
  | SkipAll => "skip everything and stop the walk"
  | PathError msg => msg
  | Errorf msg => msg
  end.

(** A Go result pair [(value, err)] with exactly one side set. *)
Inductive result (E A : Type) : Type :=
| Ok (a : A)
| Err (e : E).
Arguments Ok {E A} a.
Arguments Err {E A} e.

(** What running a piece of Go code ends in: a value, a run-time panic,
    or [os.Exit]. *)
Inductive Outcome (A : Type) : Type :=
| Value (a : A)
| Panicked (msg : string)
| Exited (code : Z).
Arguments Value {A} a.
Arguments Panicked {A} msg.
Arguments Exited {A} code.

(** Indexing a slice: a run-time panic out of range. *)
Definition index {A : Type} (s : list A) (i : nat) : Outcome A :=
  match nth_error s i with
  | Some a => Value a
  | None =>
      Panicked ("runtime error: index out of range [" ++ Itoa (Z.of_nat i)
                ++ "] with length " ++ Itoa (Z.of_nat (List.length s)))
  end.

(** *** float32 *)

Definition prec32 : Z := 24.
Definition emax32 : Z := 128.

(** The conversion [float32(n)] of a [uint32], to nearest even. *)
Definition float32_of_uint32 (n : N) : spec_float :=
  binary_normalize prec32 emax32 (Z.of_N n) 0 false.

Definition float32_div (x y : spec_float) : spec_float :=
  SFdiv prec32 emax32 x y.

(** [num / den] rounded to the nearest integer, ties to even
    ([0 <= num], [0 < den]). *)
Definition round_half_even (num den : Z) : Z :=
  let q := (num / den)%Z in
  let r := (num mod den)%Z in
  match (2 * r ?= den)%Z with
  | Lt => q
  | Gt => (q + 1)%Z
  | Eq => if Z.even q then q else (q + 1)%Z
  end.

(** The value [m * 2^e] in hundredths, correctly rounded: [strconv]
    formats ['f'] with a precision from the exact decimal expansion,
    rounding half to even. *)
Definition hundredths (m : positive) (e : Z) : Z :=
  match e with
  | Zneg p => round_half_even (Zpos m * 100) (2 ^ Zpos p)
  | _ => (Zpos m * 2 ^ e * 100)%Z
  end.

Definition two_digits (z : Z) : string :=
  if (z <? 10)%Z then "0" ++ Itoa z else Itoa z.

Definition fixed2 (h : Z) : string :=
  Itoa (h / 100) ++ "." ++ two_digits (h mod 100).

Definition sign_prefix (s : bool) : string :=
  if s then "-" else EmptyString.

(** The verb [%.2f] of [fmt.Sprintf] on a [float32]. *)
Definition Sprintf_2f (x : spec_float) : string :=
  match x with
  | S754_zero s => sign_prefix s ++ "0.00"
  | S754_infinity s => if s then "-Inf" else "+Inf"
  | S754_nan => "NaN"
  | S754_finite s m e => sign_prefix s ++ fixed2 (hundredths m e)
  end.

End Go.
Import Go.

(** ** Constants of the program *)

Definition GPSLongitudeRef : string := "GPSLongitudeRef".
Definition GPSLatitudeRef : string := "GPSLatitudeRef".
Definition GPSLongitude : string := "GPSLongitude".
Definition GPSLatitude : string := "GPSLatitude".

Definition allowedExtensions : list string := [".jpeg"; ".jpg"; ".png"; ".gif"].

Definition byte_string (codes : list nat) : string :=
  string_of_list_ascii (map ascii_of_nat codes).

(** The four bytes between the quotes of [position += ...] in
    [parseGPSPosition]: C3 82 C2 B0, the UTF-8 encoding of U+00C2 U+00B0. *)
Definition degree_literal : string := byte_string [195; 130; 194; 176]%nat.

(** The degree sign U+00B0 in UTF-8: C2 B0. *)
Definition degree_sign : string := byte_string [194; 176]%nat.

Record exifData : Type := mkExifData {
  FilePath : string;
  Latitude : string;
  Longitude : string
}.

(** ** The go-exif data the program reads *)

(** [exifCommon.Rational]. *)
Record Rational : Type := mkRational {
  Numerator : N;
  Denominator : N
}.

Record SignedRational : Type := mkSignedRational {
  SNumerator : Z;
  SDenominator : Z
}.

(** The dynamic type and value of [ExifTag.Value] ([interface{}]): the Go
    types go-exif decodes tag values to. *)
Inductive TagValue : Type :=
| VString (s : string)
| VBytes (b : list Byte.byte)
| VShorts (v : list N)
| VLongs (v : list N)
| VRationals (v : list Rational)
| VSignedLongs (v : list Z)
| VSignedRationals (v : list SignedRational)
| VNil.

Record ExifTag : Type := mkExifTag {
  TagName : string;
  TagValue_ : TagValue
}.

(** The type assertions [v.(string)] and [v.([]exifCommon.Rational)]. *)
Definition assert_string (v : TagValue) : option string :=
  match v with VString s => Some s | _ => None end.

Definition assert_rationals (v : TagValue) : option (list Rational) :=
  match v with VRationals r => Some r | _ => None end.

(** ** parseGPSPosition *)

Definition obind {A B : Type} (o : Outcome A) (k : A -> Outcome B) : Outcome B :=
  match o with
  | Value a => k a
  | Panicked msg => Panicked msg
  | Exited c => Exited c
  end.

Declare Scope go_scope.
Delimit Scope go_scope with go.
Notation "x <- c ;; k" := (obind c (fun x => k))
  (at level 61, c at next level, right associativity) : go_scope.

Definition parseGPSPosition (gpsPosArr : list Rational) : Outcome string :=
  (d <- index gpsPosArr 0 ;;
   let position :=
     if negb (Denominator d =? 0)%N
     then Itoa (Z.of_N (Numerator d / Denominator d))
     else "0" in
   let position := position ++ degree_literal in
   m <- index gpsPosArr 1 ;;
   let position :=
     if negb (Denominator m =? 0)%N
     then position ++ Itoa (Z.of_N (Numerator m / Denominator m))
     else position ++ "0" in
   let position := position ++ "'" in
   s <- index gpsPosArr 2 ;;
   let position :=
     if negb (Denominator s =? 0)%N
     then position ++ (Sprintf_2f (float32_div (float32_of_uint32 (Numerator s))
                                               (float32_of_uint32 (Denominator s)))
                       ++ "''")
     else position ++ "0''" in
   Value position)%go.

(** ** The tag loop of extractExifDataFromImage *)

Record gpsFields : Type := mkGpsFields {
  latitudeDirection : string;
  longitudeDirection : string;
  latitudeValue : string;
  longitudeValue : string
}.

Definition noFields : gpsFields :=
  mkGpsFields EmptyString EmptyString EmptyString EmptyString.

(** One iteration of [for _, exifTag := range exifTags { switch ... }]. *)
Definition tagStep (f : gpsFields) (exifTag : ExifTag) : Outcome gpsFields :=
  if TagName exifTag =? GPSLatitudeRef then
    match assert_string (TagValue_ exifTag) with
    | Some direction =>
        Value (mkGpsFields direction (longitudeDirection f)
                           (latitudeValue f) (longitudeValue f))
    | None => Value f
    end
  else if TagName exifTag =? GPSLatitude then
    match assert_rationals (TagValue_ exifTag) with
    | Some gpsPosArr =>
        (position <- parseGPSPosition gpsPosArr ;;
         Value (mkGpsFields (latitudeDirection f) (longitudeDirection f)
                            position (longitudeValue f)))%go
    | None => Value f
    end
  else if TagName exifTag =? GPSLongitudeRef then
    match assert_string (TagValue_ exifTag) with
    | Some direction =>
        Value (mkGpsFields (latitudeDirection f) direction
                           (latitudeValue f) (longitudeValue f))
    | None => Value f
    end
  else if TagName exifTag =? GPSLongitude then
    match assert_rationals (TagValue_ exifTag) with
    | Some gpsPosArr =>
        (position <- parseGPSPosition gpsPosArr ;;
         Value (mkGpsFields (latitudeDirection f) (longitudeDirection f)
                            (latitudeValue f) position))%go
    | None => Value f
    end
  else Value f.

Fixpoint tagLoop (exifTags : list ExifTag) (f : gpsFields) : Outcome gpsFields :=
  match exifTags with
  | [] => Value f
  | exifTag :: rest => (f' <- tagStep f exifTag ;; tagLoop rest f')%go
  end.

(** [if value+direction == "" { "Not available" } else { value + direction }]. *)
Definition finalOf (value direction : string) : string :=
  if value ++ direction =? EmptyString then "Not available"
  else value ++ direction.

(** ** The world outside the program *)

(** What the walk sees of the file system: an entry is a directory, with
    what [os.ReadDir] returns for it (the entries read and possibly an
    error), or anything else.  [Name] is [fs.DirEntry.Name()]. *)
#[local] Unset Elimination Schemes.
Inductive DirEntry : Type :=
| File (name : string)
| Dir (name : string) (dirs : list DirEntry) (readErr : option string).
#[local] Set Elimination Schemes.

Definition Name (d : DirEntry) : string :=
  match d with File n => n | Dir n _ _ => n end.

Definition IsDir (d : DirEntry) : bool :=
  match d with File _ => false | Dir _ _ _ => true end.

(** The operating system and the libraries main.go calls: [os.Lstat] of
    the root, [ioutil.ReadFile], [os.Create] (its error, if any),
    [filepath.Join], go-exif's [SearchAndExtractExif] and
    [GetFlatExifDataUniversalSearch], and html/template: [Execute data] is
    what [tpl.Execute(htmlFile, data)] does for the template parsed from
    [tplStr], the bytes it wrote to the file (cells escaped as html/template
    escapes them) and the error it returned, if any. *)
Record World : Type := mkWorld {
  Lstat : string -> result string DirEntry;
  ReadFile : string -> result string (list Byte.byte);
  Create : string -> option string;
  Join : string -> string -> string;
  SearchAndExtractExif : list Byte.byte -> result error (list Byte.byte);
  GetFlatExifDataUniversalSearch : list Byte.byte -> result error (list ExifTag);
  Execute : list exifData -> string * option error
}.

(** ** extractExifDataFromImage *)

Definition extractExifDataFromImage (w : World) (imageFilePath : string)
  : Outcome (result error exifData) :=
  match ReadFile w imageFilePath with
  | Err err =>
      Value (Err (Errorf ("error reading from file: " ++ imageFilePath
                          ++ ", with error: " ++ Error (PathError err))))
  | Ok data =>
      match SearchAndExtractExif w data with
      | Err ErrNoExif =>
          Value (Err (Errorf ("no EXIF data found in the file: " ++ imageFilePath
                              ++ ", with error: " ++ Error ErrNoExif)))
      | Err err =>
          Value (Err (Errorf ("error reading exif data from file: " ++ imageFilePath
                              ++ ", with error: " ++ Error err)))
      | Ok exifInfo =>
          match GetFlatExifDataUniversalSearch w exifInfo with
          | Err err =>
              Value (Err (Errorf ("error fetching flat exif data from rawData: "
                                  ++ imageFilePath ++ ", with error: " ++ Error err)))
          | Ok exifTags =>
              (f <- tagLoop exifTags noFields ;;
               let finalLat := finalOf (latitudeValue f) (latitudeDirection f) in
               let finalLong := finalOf (longitudeValue f) (longitudeDirection f) in
               Value (Ok (mkExifData imageFilePath finalLat finalLong)))%go
          end
      end
  end.

(** ** hasValidExtension *)

Fixpoint hasSuffixIn (name : string) (exts : list string) : bool :=
  match exts with
  | [] => false
  | ext :: rest => if HasSuffix name ext then true else hasSuffixIn name rest
  end.

Definition hasValidExtension (name : string) : bool :=
  hasSuffixIn name allowedExtensions.

(** ** The process: log, accumulated records, files written *)

Definition row : Type := list string.

(** What a file holds: nothing yet, the records given to a [csv.Writer] (the
    cells, before quoting), or the bytes of a page. *)
Inductive Content : Type :=
| NoContent
| CsvRows (rows : list row)
| HtmlPage (page : string).

Record State : Type := mkState {
  exifDataArr : list exifData;
  logged : list string;
  files : list (string * Content)
}.

Definition initState : State := mkState [] [] [].

Definition Proc (A : Type) : Type := State -> Outcome A * State.

Definition ret {A : Type} (a : A) : Proc A := fun st => (Value a, st).

Definition bind {A B : Type} (c : Proc A) (k : A -> Proc B) : Proc B :=
  fun st =>
    match c st with
    | (Value a, st') => k a st'
    | (Panicked msg, st') => (Panicked msg, st')
    | (Exited code, st') => (Exited code, st')
    end.

Declare Scope proc_scope.
Delimit Scope proc_scope with proc.
Notation "x <- c ;; k" := (bind c (fun x => k))
  (at level 61, c at next level, right associativity) : proc_scope.
Notation "c ;;; k" := (bind c (fun _ => k))
  (at level 61, right associativity) : proc_scope.

Definition lift {A : Type} (o : Outcome A) : Proc A := fun st => (o, st).

(** [log.Println(line)]. *)
Definition log_Println (line : string) : Proc unit :=
  fun st => (Value tt, mkState (exifDataArr st) (logged st ++ [line])%list (files st)).

(** [log.Fatalf]: the line is logged and the process exits with status 1. *)
Definition log_Fatal (line : string) {A : Type} : Proc A :=
  fun st => (Exited 1, mkState (exifDataArr st) (logged st ++ [line])%list (files st)).

(** [exifDataArr = append(exifDataArr, exifData)]. *)
Definition appendExifData (d : exifData) : Proc unit :=
  fun st => (Value tt, mkState (exifDataArr st ++ [d])%list (logged st) (files st)).

Definition getExifDataArr : Proc (list exifData) :=
  fun st => (Value (exifDataArr st), st).

(** A file [os.Create] has just made: present and empty. *)
Definition fcreate (fileName : string) : Proc unit :=
  fun st => (Value tt, mkState (exifDataArr st) (logged st)
                               (files st ++ [(fileName, NoContent)])%list).

(** What a file holds after more of the same kind is written to it. *)
Definition written (old new : Content) : Content :=
  match old, new with
  | NoContent, _ => new
  | CsvRows a, CsvRows b => CsvRows (a ++ b)
  | HtmlPage a, HtmlPage b => HtmlPage (a ++ b)
  | _, _ => old
  end.

Definition addContent (fileName : string) (c : Content)
  (fs : list (string * Content)) : list (string * Content) :=
  map (fun f => if fst f =? fileName then (fst f, written (snd f) c) else f) fs.

(** Records or bytes written to an open file. *)
Definition fwrite (fileName : string) (c : Content) : Proc unit :=
  fun st => (Value tt, mkState (exifDataArr st) (logged st)
                               (addContent fileName c (files st))).

(** [panic(err)]. *)
Definition panic (err : error) {A : Type} : Proc A :=
  fun st => (Panicked (Error err), st).

(** ** The callback given to filepath.WalkDir *)

Definition WalkDirFunc : Type :=
  string -> option DirEntry -> option error -> Proc (option error).

(** [fileInfo.Name()], a nil dereference when there is no entry. *)
Definition entryName (fileInfo : option DirEntry) : Outcome string :=
  match fileInfo with
  | Some d => Value (Name d)
  | None => Panicked "runtime error: invalid memory address or nil pointer dereference"
  end.

Definition walkFn (w : World) : WalkDirFunc :=
  fun path fileInfo err =>
    match err with
    | Some e =>
        (log_Println ("error while walking directory: " ++ path
                      ++ ", with error: " ++ Error e) ;;;
         ret (Some e))%proc
    | None =>
        (name <- lift (entryName fileInfo) ;;
         (if hasValidExtension name then
            x <- lift (extractExifDataFromImage w path) ;;
            match x with
            | Err extractErr => log_Println (Error extractErr)
            | Ok d => appendExifData d
            end
          else ret tt) ;;;
         ret err)%proc
    end.

(** ** filepath.WalkDir, of the Go standard library *)

Section Walk.
Variable join : string -> string -> string.
Variable fn : WalkDirFunc.

(** [if err == SkipDir && d.IsDir() { err = nil }; return err]. *)
Definition skipped (d : DirEntry) (e : error) : option error :=
  match e with
  | SkipDir => if IsDir d then None else Some e
  | _ => Some e
  end.

(** [for _, d1 := range dirs { ... walkDir(Join(path, d1.Name()), d1, fn) ... }]
    followed by [return nil]. *)
Definition walkEntries (walk : string -> DirEntry -> Proc (option error))
  (path : string) : list DirEntry -> Proc (option error) :=
  fix loop (ds : list DirEntry) : Proc (option error) :=
    match ds with
    | [] => ret None
    | d1 :: rest =>
        (err <- walk (join path (Name d1)) d1 ;;
         match err with
         | Some SkipDir => ret None
         | Some e => ret (Some e)
         | None => loop rest
         end)%proc
    end.

Fixpoint walkDir (path : string) (d : DirEntry) {struct d} : Proc (option error) :=
  (err <- fn path (Some d) None ;;
   match err, d with
   | Some e, _ => ret (skipped d e)
   | None, File _ => ret None
   | None, Dir _ dirs readErr =>
       match readErr with
       | Some msg =>
           err' <- fn path (Some d) (Some (PathError msg)) ;;
           match err' with
           | Some e => ret (skipped d e)
           | None => walkEntries walkDir path dirs
           end
       | None => walkEntries walkDir path dirs
       end
   end)%proc.

Definition WalkDir (lstat : string -> result string DirEntry) (root : string)
  : Proc (option error) :=
  (err <- match lstat root with
          | Err msg => fn root None (Some (PathError msg))
          | Ok info => walkDir root info
          end ;;
   match err with
   | Some SkipDir | Some SkipAll => ret None
   | _ => ret err
   end)%proc.
End Walk.

(** ** Reports *)

(** [createFile]: on an error of [os.Create] it calls [log.Fatalf]. *)
Definition createFile (w : World) (fileName : string) : Proc (string * option error) :=
  match Create w fileName with
  | Some msg => log_Fatal ("failed to create file: " ++ Error (PathError msg))
  | None => (fcreate fileName ;;; ret (fileName, None))%proc
  end.

Definition headerRow : row := ["File Path"; "Latitude"; "Longitude"].

Definition rowOf (d : exifData) : row := [FilePath d; Latitude d; Longitude d].

Definition writeToCSV (w : World) (csvDataArr : list exifData) : Proc unit :=
  (fe <- createFile w "exif-data.csv" ;;
   match snd fe with
   | Some err => log_Println ("Error creating CSV file. Error: " ++ Error err)
   | None => fwrite (fst fe) (CsvRows (headerRow :: map rowOf csvDataArr))
   end)%proc.

(** [template.New("table").Parse(tplStr)] is applied to a constant and
    succeeds, so its [panic] is not reached; the one of [tpl.Execute] is. *)
Definition writeToHTML (w : World) (data : list exifData) : Proc unit :=
  (fe <- createFile w "exif-data.html" ;;
   match snd fe with
   | Some err => log_Println ("Error creating HTML file. Error: " ++ Error err)
   | None =>
       fwrite (fst fe) (HtmlPage (fst (Execute w data))) ;;;
       match snd (Execute w data) with
       | Some err => panic err
       | None => ret tt
       end
   end)%proc.

(** ** main *)

Record Flags : Type := mkFlags {
  htmlFlag : bool;
  csvFlag : bool;
  rootPath : string
}.

Definition directoryPath (fl : Flags) : string :=
  if rootPath fl =? EmptyString then "images" else rootPath fl.

(** The walk of [main], from an empty [exifDataArr]. *)
Definition aggregate (w : World) (root : string) : Proc (option error) :=
  WalkDir (Join w) (walkFn w) (Lstat w) root.

Definition main (w : World) (fl : Flags) : Proc unit :=
  (walkErr <- aggregate w (directoryPath fl) ;;
   match walkErr with
   | Some err => log_Println (Error err)
   | None =>
       data <- getExifDataArr ;;
       if htmlFlag fl && negb (csvFlag fl) then writeToHTML w data
       else if negb (htmlFlag fl) && csvFlag fl then writeToCSV w data
       else (writeToCSV w data ;;; writeToHTML w data)
   end)%proc.

(** ** States after a callback *)

Definition withRecord (st : State) (d : exifData) : State :=
  mkState (exifDataArr st ++ [d])%list (logged st) (files st).

Definition withLine (st : State) (line : string) : State :=
  mkState (exifDataArr st) (logged st ++ [line])%list (files st).

(** The four tag names the loop looks at. *)
Definition isGPSName (name : string) : bool :=
  (name =? GPSLatitudeRef) || (name =? GPSLatitude) ||
  (name =? GPSLongitudeRef) || (name =? GPSLongitude).

(** ** Induction on directory trees *)

Section DirEntryInduction.
Variable P : DirEntry -> Prop.
Hypothesis P_File : forall name, P (File name).
Hypothesis P_Dir :
  forall name dirs readErr, Forall P dirs -> P (Dir name dirs readErr).

Fixpoint DirEntry_ind (d : DirEntry) : P d :=
  match d with
  | File name => P_File name
  | Dir name dirs readErr =>
      P_Dir name dirs readErr
            ((fix all (l : list DirEntry) : Forall P l :=
                match l with
                | [] => Forall_nil P
                | d1 :: rest => Forall_cons d1 (DirEntry_ind d1) (all rest)
                end) dirs)
  end.
End DirEntryInduction.

(** ** What a walk over a tree visits *)

(** The preorder of (path, entry) pairs of a tree all of whose directories
    can be read. *)
Fixpoint visits (join : string -> string -> string) (path : string) (d : DirEntry)
  : list (string * DirEntry) :=
  (path, d) ::
  match d with
  | File _ => []
  | Dir _ dirs _ => flat_map (fun d1 => visits join (join path (Name d1)) d1) dirs
  end.

Fixpoint readable (d : DirEntry) : bool :=
  match d with
  | File _ => true
  | Dir _ dirs readErr =>
      match readErr with Some _ => false | None => forallb readable dirs end
  end.

(** Some directory of the tree cannot be read. *)
Fixpoint hasReadErr (d : DirEntry) : bool :=
  match d with
  | File _ => false
  | Dir _ dirs readErr =>
      match readErr with Some _ => true | None => existsb hasReadErr dirs end
  end.

(** The paths of the visited entries whose name has an allowed extension. *)
Definition eligiblePaths (w : World) (path : string) (d : DirEntry) : list string :=
  map fst (filter (fun pd => hasValidExtension (Name (snd pd))) (visits (Join w) path d)).

Definition recordOf (w : World) (path : string) : list exifData :=
  match extractExifDataFromImage w path with
  | Value (Ok rec) => [rec]
  | _ => []
  end.

Definition lineOf (w : World) (path : string) : list string :=
  match extractExifDataFromImage w path with
  | Value (Err e) => [Error e]
  | _ => []
  end.

Definition returns (w : World) (path : string) : bool :=
  match extractExifDataFromImage w path with
  | Value _ => true
  | _ => false
  end.

(** The records of the paths that build, and the log lines of those that
    fail, both in the order of the paths. *)
Definition successes (w : World) (paths : list string) : list exifData :=
  flat_map (recordOf w) paths.

Definition failures (w : World) (paths : list string) : list string :=
  flat_map (lineOf w) paths.

Definition afterVisits (w : World) (st : State) (paths : list string) : State :=
  mkState (exifDataArr st ++ successes w paths)%list
          (logged st ++ failures w paths)%list
          (files st).


(** What a walk with the program's callback can end in: it ran to the end
    of a tree without unreadable directory, or it returned the error of a
    directory read, or an extraction panicked.  No file is touched. *)
Definition walkShape (unreadable : bool) (o : Outcome (option error)) : Prop :=
  (o = Value None /\ unreadable = false) \/
  (exists msg, o = Value (Some (PathError msg))) \/
  (exists msg, o = Panicked msg).

(** ** Worlds used to run the program on concrete inputs *)

Module Sample.

Definition joinSlash (a b : string) : string := a ++ "/" ++ b.

Definition bytesA : list Byte.byte := [Byte.x01].
Definition bytesB : list Byte.byte := [Byte.x02].
Definition bytesBad : list Byte.byte := [Byte.x00].
Definition bytesShort : list Byte.byte := [Byte.x03].

Definition tree : DirEntry :=
  Dir "images"
      [File "a.jpg"; File "bad.png";
       Dir "sub" [File "b.jpeg"; File "photo.JPG"] None;
       File "notes.txt"]
      None.

Definition lstat (root : string) : result string DirEntry :=
  if root =? "images" then Ok tree
  else if root =? "locked" then
    Ok (Dir "locked" [File "a.jpg"; Dir "private" [] (Some "open locked/private: permission denied")] None)
  else if root =? "short" then Ok (Dir "short" [File "s.jpg"] None)
  else Err ("lstat " ++ root ++ ": no such file or directory").

Definition readFile (path : string) : result string (list Byte.byte) :=
  if path =? "images/a.jpg" then Ok bytesA
  else if path =? "locked/a.jpg" then Ok bytesA
  else if path =? "images/sub/b.jpeg" then Ok bytesB
  else if path =? "images/bad.png" then Ok bytesBad
  else if path =? "short/s.jpg" then Ok bytesShort
  else Err ("open " ++ path ++ ": no such file or directory").

Definition searchExif (data : list Byte.byte) : result error (list Byte.byte) :=
  match data with
  | [Byte.x00] => Err ErrNoExif
  | _ => Ok data
  end.

Definition flatTags (raw : list Byte.byte) : result error (list ExifTag) :=
  match raw with
  | [Byte.x01] =>
      Ok [mkExifTag "Make" (VString "Canon");
          mkExifTag GPSLatitudeRef (VString "N");
          mkExifTag GPSLatitude
            (VRationals [mkRational 34 1; mkRational 5 1; mkRational 1200 100]);
          mkExifTag GPSLongitudeRef (VString "W");
          mkExifTag GPSLongitude
            (VRationals [mkRational 118 1; mkRational 14 1; mkRational 0 0])]
  | [Byte.x02] => Ok [mkExifTag "Make" (VString "Nikon")]
  | [Byte.x03] =>
      Ok [mkExifTag GPSLatitude (VRationals [mkRational 34 1; mkRational 5 1])]
  | _ => Err (Errorf "unexpected exif structure")
  end.

(** The page of the sample worlds: the rows of the table, with the
    characters html/template escapes in text written as it writes them. *)
Definition escapeByte (c : ascii) : string :=
  match nat_of_ascii c with
  | 0%nat => byte_string [239; 191; 189]%nat
  | 34%nat => "&#34;"
  | 38%nat => "&amp;"
  | 39%nat => "&#39;"
  | 43%nat => "&#43;"
  | 60%nat => "&lt;"
  | 62%nat => "&gt;"
  | _ => String c EmptyString
  end.

Fixpoint escape (s : string) : string :=
  match s with
  | EmptyString => EmptyString
  | String c rest => escapeByte c ++ escape rest
  end.

Definition tableRow (d : exifData) : string :=
  "<tr><td>" ++ escape (FilePath d) ++ "</td><td>" ++ escape (Latitude d)
  ++ "</td><td>" ++ escape (Longitude d) ++ "</td></tr>".

Definition execute (data : list exifData) : string * option error :=
  (concat EmptyString (map tableRow data), None).

(** Every file can be created. *)
Definition world : World :=
  mkWorld lstat readFile (fun _ => None) joinSlash searchExif flatTags execute.

(** The same tree and files, but [exif-data.csv] cannot be created. *)
Definition worldCsvDenied : World :=
  mkWorld lstat readFile
          (fun n => if n =? "exif-data.csv"
                    then Some "open exif-data.csv: permission denied" else None)
          joinSlash searchExif flatTags execute.

Definition defaultFlags : Flags := mkFlags false false EmptyString.

End Sample.

(** ** Notions used to describe the tag loop, the errors and the reports *)

Definition isLatitudeName (name : string) : bool :=
  (name =? GPSLatitudeRef) || (name =? GPSLatitude).

Definition isLongitudeName (name : string) : bool :=
  (name =? GPSLongitudeRef) || (name =? GPSLongitude).

(** A coordinate tag whose value is a rational slice of fewer than three
    elements. *)
Definition isShortCoordinate (t : ExifTag) : bool :=
  ((TagName t =? GPSLatitude) || (TagName t =? GPSLongitude)) &&
  match assert_rationals (TagValue_ t) with
  | Some l => (List.length l <? 3)%nat
  | None => false
  end.

(** The two axes: [true] is the latitude, [false] the longitude. *)
Definition coordinateName (lat : bool) : string :=
  if lat then GPSLatitude else GPSLongitude.

Definition valueOf (lat : bool) (f : gpsFields) : string :=
  if lat then latitudeValue f else longitudeValue f.

Definition fieldOf (lat : bool) (rec : exifData) : string :=
  if lat then Latitude rec else Longitude rec.

(** A coordinate tag of the axis whose value is a rational slice. *)
Definition isCoordinateOf (lat : bool) (t : ExifTag) : bool :=
  (TagName t =? coordinateName lat) &&
  match assert_rationals (TagValue_ t) with Some _ => true | None => false end.

(** A record as the extraction of its own path returns it, with both
    coordinate fields filled. *)
Definition goodRecord (w : World) (rec : exifData) : Prop :=
  Latitude rec <> EmptyString /\ Longitude rec <> EmptyString /\
  extractExifDataFromImage w (FilePath rec) = Value (Ok rec).

(** [st'] is [st] with such records and with log lines appended, and the
    same files. *)
Definition extends (w : World) (st st' : State) : Prop :=
  exists recs lines,
    exifDataArr st' = (exifDataArr st ++ recs)%list /\
    logged st' = (logged st ++ lines)%list /\
    files st' = files st /\
    Forall (goodRecord w) recs.

Fixpoint hasByte (c : ascii) (s : string) : bool :=
  match s with
  | EmptyString => false
  | String a rest => Ascii.eqb a c || hasByte c rest
  end.

Fixpoint lastByte (s : string) : option ascii :=
  match s with
  | EmptyString => None
  | String a EmptyString => Some a
  | String _ rest => lastByte rest
  end.

(** One of the three steps before the tag loop fails: reading the file,
    finding the EXIF block, flattening it. *)
Definition decodeFails (w : World) (path : string) : bool :=
  match ReadFile w path with
  | Err _ => true
  | Ok data =>
      match SearchAndExtractExif w data with
      | Err _ => true
      | Ok raw =>
          match GetFlatExifDataUniversalSearch w raw with
          | Err _ => true
          | Ok _ => false
          end
      end
  end.



(** More sample worlds: an image with latitude tags only, one whose tags
    repeat, and a world where exif-data.html cannot be created. *)
Module Cases.

Definition bytesLat : list Byte.byte := [Byte.x04].

Definition latTags : list ExifTag :=
  [mkExifTag GPSLatitudeRef (VString "S");
   mkExifTag GPSLatitude
     (VRationals [mkRational 12 1; mkRational 30 1; mkRational 45 2; mkRational 9 9]);
   mkExifTag GPSLatitudeRef (VString "N");
   mkExifTag "Model" (VString "X100")].

Definition lstat (root : string) : result string DirEntry :=
  if root =? "lat" then Ok (Dir "lat" [File "only.jpg"] None)
  else if root =? "partial" then
    Ok (Dir "partial"
            [File "a.jpg";
             Dir "locked" [File "hidden.jpg"] (Some "open partial/locked: permission denied");
             File "z.jpg"]
            None)
  else Sample.lstat root.

Definition readFile (path : string) : result string (list Byte.byte) :=
  if path =? "lat/only.jpg" then Ok bytesLat
  else if path =? "albums/2024.jpg" then Err "read albums/2024.jpg: is a directory"
  else if path =? "albums/2024.jpg/beach.jpg" then Ok Sample.bytesA
  else if path =? "partial/a.jpg" then Ok Sample.bytesA
  else if path =? "partial/z.jpg" then Ok Sample.bytesB
  else if path =? "partial/locked/hidden.jpg" then Ok Sample.bytesB
  else Sample.readFile path.

Definition flatTags (raw : list Byte.byte) : result error (list ExifTag) :=
  match raw with
  | [Byte.x04] => Ok latTags
  | _ => Sample.flatTags raw
  end.

Definition world : World :=
  mkWorld lstat readFile (fun _ => None) Sample.joinSlash Sample.searchExif flatTags
          Sample.execute.


End Cases.

(** The loop acts on the tag: it has one of the four names and a value of
    the type the case for that name asserts. *)
Definition isConsumed (t : ExifTag) : bool :=
  (((TagName t =? GPSLatitudeRef) || (TagName t =? GPSLongitudeRef)) &&
   match assert_string (TagValue_ t) with Some _ => true | None => false end) ||
  (((TagName t =? GPSLatitude) || (TagName t =? GPSLongitude)) &&
   match assert_rationals (TagValue_ t) with Some _ => true | None => false end).

(** The first byte (C3) of the separator literal of [parseGPSPosition]. *)
Definition separatorByte : ascii := ascii_of_nat 195.

(** ** Runs after runs *)

(** [st] followed by what [d] holds. *)
Definition after (st d : State) : State :=
  mkState (exifDataArr st ++ exifDataArr d)%list
          (logged st ++ logged d)%list
          (files st ++ files d)%list.


(** A computation that does not look at the state it starts in: from any
    state it ends as from the empty one and adds what it adds there. *)
Definition stateBlind {A : Type} (c : Proc A) : Prop :=
  forall st, c st = (fst (c initState), after st (snd (c initState))).

(** A directory with two images that build and, between them, one whose
    GPSLatitude tag holds two rationals. *)
Module Faulty.

Definition tree : DirEntry :=
  Dir "mixed" [File "a.jpg"; File "s.jpg"; File "b.jpeg"] None.

Definition lstat (root : string) : result string DirEntry :=
  if root =? "mixed" then Ok tree
  else Err ("lstat " ++ root ++ ": no such file or directory").

Definition readFile (path : string) : result string (list Byte.byte) :=
  if path =? "mixed/a.jpg" then Ok Sample.bytesA
  else if path =? "mixed/s.jpg" then Ok Sample.bytesShort
  else if path =? "mixed/b.jpeg" then Ok Sample.bytesB
  else Err ("open " ++ path ++ ": no such file or directory").

Definition world : World :=
  mkWorld lstat readFile (fun _ => None) Sample.joinSlash Sample.searchExif
          Sample.flatTags Sample.execute.


End Faulty.

(** * Properties *)

(** ** Suffixes *)

Lemma length_append (a b : string) :
  length (a ++ b) = (length a + length b)%nat.
Proof.
  induction a as [|c a IH]; simpl; [reflexivity | now rewrite IH].
Qed.

Lemma substring_whole (s : string) : substring 0 (length s) s = s.
Proof.
  induction s as [|c s IH]; simpl; [reflexivity | now rewrite IH].
Qed.

Lemma substring_skip (p s : string) :
  substring (length p) (length s) (p ++ s) = s.
Proof.
  induction p as [|c p IH]; simpl; [apply substring_whole | exact IH].
Qed.

Lemma substring_split (s : string) :
  forall n, (n <= length s)%nat ->
            s = substring 0 n s ++ substring n (length s - n) s.
Proof.
  induction s as [|c s IH]; intros [|n] Hn; simpl in *.
  - reflexivity.
  - lia.
  - now rewrite substring_whole.
  - rewrite <- IH by lia.
    clear IH. destruct s; reflexivity.
Qed.

Lemma HasSuffix_spec (s suffix : string) :
  HasSuffix s suffix = true <-> exists p, s = p ++ suffix.
Proof.
  unfold HasSuffix. rewrite andb_true_iff, Nat.leb_le, String.eqb_eq. split.
  - intros [Hlen Hsub].
    exists (substring 0 (length s - length suffix) s).
    pose proof (substring_split s (length s - length suffix)%nat) as H.
    replace (length s - (length s - length suffix))%nat with (length suffix) in H by lia.
    rewrite Hsub in H. apply H. lia.
  - intros [p ->]. rewrite length_append. split; [lia|].
    replace (length p + length suffix - length suffix)%nat with (length p) by lia.
    apply substring_skip.
Qed.

Lemma hasSuffixIn_spec (name : string) (exts : list string) :
  hasSuffixIn name exts = true <-> exists ext, In ext exts /\ HasSuffix name ext = true.
Proof.
  induction exts as [|e exts IH]; simpl.
  - split; [discriminate | intros (? & [] & _)].
  - destruct (HasSuffix name e) eqn:He.
    + split; [intros _; exists e; auto | reflexivity].
    + rewrite IH. split.
      * intros (x & Hin & Hx). exists x; auto.
      * intros (x & [<- | Hin] & Hx); [congruence | exists x; auto].
Qed.

(** ** The callback, case by case *)

Lemma walkFn_error (w : World) path fileInfo e st :
  walkFn w path fileInfo (Some e) st =
  (Value (Some e),
   withLine st ("error while walking directory: " ++ path
                ++ ", with error: " ++ Error e)).
Proof. reflexivity. Qed.

Lemma walkFn_entry (w : World) path d st :
  walkFn w path (Some d) None st =
  if hasValidExtension (Name d) then
    match extractExifDataFromImage w path with
    | Value (Ok rec) => (Value None, withRecord st rec)
    | Value (Err e) => (Value None, withLine st (Error e))
    | Panicked msg => (Panicked msg, st)
    | Exited code => (Exited code, st)
    end
  else (Value None, st).
Proof.
  unfold walkFn, bind, lift, entryName, ret. simpl.
  destruct (hasValidExtension (Name d)); [|reflexivity].
  destruct (extractExifDataFromImage w path) as [[rec|e]| |]; reflexivity.
Qed.

(** [extractExifDataFromImage] never calls [os.Exit]. *)
Lemma parseGPSPosition_no_exit l code : parseGPSPosition l <> Exited code.
Proof.
  unfold parseGPSPosition, index.
  destruct l as [|a [|b [|c l]]]; simpl; discriminate.
Qed.

Lemma tagStep_no_exit f t code : tagStep f t <> Exited code.
Proof.
  unfold tagStep.
  repeat match goal with
         | |- context [if ?b then _ else _] => destruct b
         | |- context [match assert_string ?v with _ => _ end] => destruct (assert_string v)
         | |- context [match assert_rationals ?v with _ => _ end] =>
             destruct (assert_rationals v) as [l|];
             [pose proof (parseGPSPosition_no_exit l code);
              destruct (parseGPSPosition l); simpl|]
         end; congruence.
Qed.

Lemma tagLoop_no_exit tags : forall f code, tagLoop tags f <> Exited code.
Proof.
  induction tags as [|t tags IH]; intros f code; simpl; [discriminate|].
  pose proof (tagStep_no_exit f t code).
  destruct (tagStep f t); simpl; [apply IH | discriminate | congruence].
Qed.

Lemma extract_no_exit (w : World) path code :
  extractExifDataFromImage w path <> Exited code.
Proof.
  unfold extractExifDataFromImage.
  destruct (ReadFile w path); [|discriminate].
  destruct (SearchAndExtractExif w a) as [raw|[]]; try discriminate.
  destruct (GetFlatExifDataUniversalSearch w raw) as [tags|]; [|discriminate].
  pose proof (tagLoop_no_exit tags noFields code).
  destruct (tagLoop tags noFields); simpl; congruence.
Qed.

(** ** The walk *)

Lemma walkDir_eq join fn path d :
  walkDir join fn path d =
  (err <- fn path (Some d) None ;;
   match err, d with
   | Some e, _ => ret (skipped d e)
   | None, File _ => ret None
   | None, Dir _ dirs readErr =>
       match readErr with
       | Some msg =>
           err' <- fn path (Some d) (Some (PathError msg)) ;;
           match err' with
           | Some e => ret (skipped d e)
           | None => walkEntries join (walkDir join fn) path dirs
           end
       | None => walkEntries join (walkDir join fn) path dirs
       end
   end)%proc.
Proof. destruct d; reflexivity. Qed.

Lemma walkEntries_cons join walk path d1 rest :
  walkEntries join walk path (d1 :: rest) =
  (err <- walk (join path (Name d1)) d1 ;;
   match err with
   | Some SkipDir => ret None
   | Some e => ret (Some e)
   | None => walkEntries join walk path rest
   end)%proc.
Proof. reflexivity. Qed.





(** A tree that can be read everywhere is walked to its end, in preorder. *)
Lemma afterVisits_app w st l1 l2 :
  afterVisits w (afterVisits w st l1) l2 = afterVisits w st (l1 ++ l2)%list.
Proof.
  unfold afterVisits, successes, failures; simpl.
  now rewrite !flat_map_app, !app_assoc.
Qed.

Lemma afterVisits_nil w st : afterVisits w st [] = st.
Proof.
  destruct st; unfold afterVisits, successes, failures; simpl.
  now rewrite !app_nil_r.
Qed.

Lemma eligiblePaths_eq w path d :
  eligiblePaths w path d =
  ((if hasValidExtension (Name d) then [path] else []) ++
   match d with
   | File _ => []
   | Dir _ dirs _ => flat_map (fun d1 => eligiblePaths w (Join w path (Name d1)) d1) dirs
   end)%list.
Proof.
  unfold eligiblePaths. destruct d as [name|name dirs readErr]; simpl.
  - destruct (hasValidExtension name); reflexivity.
  - assert (H : forall l,
      map fst (filter (fun pd => hasValidExtension (Name (snd pd)))
                 (flat_map (fun d1 => visits (Join w) (Join w path (Name d1)) d1) l)) =
      flat_map (fun d1 =>
                  map fst (filter (fun pd => hasValidExtension (Name (snd pd)))
                             (visits (Join w) (Join w path (Name d1)) d1))) l).
    { induction l as [|d1 l IHl]; [reflexivity|].
      cbn [flat_map]. now rewrite filter_app, map_app, IHl. }
    destruct (hasValidExtension name); simpl; now rewrite H.
Qed.

Lemma walkFn_returns w path d st :
  forallb (returns w) (if hasValidExtension (Name d) then [path] else []) = true ->
  walkFn w path (Some d) None st =
  (Value None, afterVisits w st (if hasValidExtension (Name d) then [path] else [])).
Proof.
  rewrite walkFn_entry.
  destruct (hasValidExtension (Name d)).
  - unfold returns, afterVisits, successes, failures, recordOf, lineOf; simpl.
    destruct (extractExifDataFromImage w path) as [[rec|e]| |]; try discriminate;
      intros _; unfold withRecord, withLine; simpl; now rewrite !app_nil_r.
  - intros _. now rewrite afterVisits_nil.
Qed.

Lemma walkEntries_readable w path dirs :
  Forall (fun d => forall p st,
              readable d = true ->
              forallb (returns w) (eligiblePaths w p d) = true ->
              walkDir (Join w) (walkFn w) p d st =
              (Value None, afterVisits w st (eligiblePaths w p d))) dirs ->
  forall st,
    forallb readable dirs = true ->
    forallb (returns w)
            (flat_map (fun d1 => eligiblePaths w (Join w path (Name d1)) d1) dirs) = true ->
    walkEntries (Join w) (walkDir (Join w) (walkFn w)) path dirs st =
    (Value None,
     afterVisits w st (flat_map (fun d1 => eligiblePaths w (Join w path (Name d1)) d1) dirs)).
Proof.
  intros Hall. induction Hall as [|d1 rest Hd _ IH]; intros st Hr Hp.
  - cbn. now rewrite afterVisits_nil.
  - cbn [forallb flat_map] in Hr, Hp |- *.
    apply andb_true_iff in Hr as [Hr1 Hr2].
    rewrite forallb_app in Hp. apply andb_true_iff in Hp as [Hp1 Hp2].
    rewrite walkEntries_cons. unfold bind.
    rewrite Hd by assumption.
    rewrite IH by assumption.
    now rewrite afterVisits_app.
Qed.

Lemma walkDir_readable w d :
  forall path st,
    readable d = true ->
    forallb (returns w) (eligiblePaths w path d) = true ->
    walkDir (Join w) (walkFn w) path d st =
    (Value None, afterVisits w st (eligiblePaths w path d)).
Proof.
  induction d as [name|name dirs readErr IH] using DirEntry_ind; intros path st Hr Hp;
    rewrite walkDir_eq; rewrite eligiblePaths_eq in Hp |- *;
    rewrite forallb_app in Hp; apply andb_true_iff in Hp as [Hp1 Hp2];
    unfold bind; rewrite walkFn_returns by assumption.
  - now rewrite app_nil_r.
  - simpl in Hr. destruct readErr; [discriminate|].
    rewrite (walkEntries_readable w path dirs IH) by assumption.
    now rewrite afterVisits_app.
Qed.

(** The outcome and final state of a run are read off by computation; the
    files are those of the start. *)
Ltac ends_in :=
  eexists _, _; split; [reflexivity|];
  split; [first [assumption | reflexivity | congruence]|].

Lemma walkFn_entry_outcome w path d st :
  exists o st',
    walkFn w path (Some d) None st = (o, st') /\ files st' = files st /\
    (o = Value None \/ exists msg, o = Panicked msg).
Proof.
  rewrite walkFn_entry.
  destruct (hasValidExtension (Name d)).
  2: { exists (Value None), st. auto. }
  pose proof (extract_no_exit w path) as Hexit.
  destruct (extractExifDataFromImage w path) as [[rec|e]|msg|code].
  - ends_in. now left.
  - ends_in. now left.
  - ends_in. right; eauto.
  - now destruct (Hexit code).
Qed.

Lemma walkEntries_outcome w path dirs :
  Forall (fun d => forall p st, exists o st',
              walkDir (Join w) (walkFn w) p d st = (o, st') /\
              files st' = files st /\ walkShape (hasReadErr d) o) dirs ->
  forall st, exists o st',
    walkEntries (Join w) (walkDir (Join w) (walkFn w)) path dirs st = (o, st') /\
    files st' = files st /\ walkShape (existsb hasReadErr dirs) o.
Proof.
  intros Hall. induction Hall as [|d1 rest Hd _ IH]; intros st.
  - ends_in. left; auto.
  - rewrite walkEntries_cons. unfold bind.
    destruct (Hd (Join w path (Name d1)) st) as (o1 & st1 & -> & Hf1 & Hs1).
    destruct Hs1 as [[-> Hno] | [[msg ->] | [msg ->]]].
    + destruct (IH st1) as (o & st' & -> & Hf & Hs).
      ends_in. cbn [existsb]. now rewrite Hno.
    + ends_in. right; left; eauto.
    + ends_in. right; right; eauto.
Qed.

Lemma walkDir_outcome w d :
  forall path st, exists o st',
    walkDir (Join w) (walkFn w) path d st = (o, st') /\
    files st' = files st /\ walkShape (hasReadErr d) o.
Proof.
  induction d as [name|name dirs readErr IH] using DirEntry_ind; intros path st;
    rewrite walkDir_eq; unfold bind.
  - destruct (walkFn_entry_outcome w path (File name) st)
      as (o & st1 & -> & Hf & [-> | [msg ->]]).
    + ends_in. left; auto.
    + ends_in. right; right; eauto.
  - destruct (walkFn_entry_outcome w path (Dir name dirs readErr) st)
      as (o & st1 & -> & Hf & [-> | [msg ->]]).
    + destruct readErr as [msg|].
      * rewrite walkFn_error.
        ends_in. right; left. exists msg. reflexivity.
      * destruct (walkEntries_outcome w path dirs IH st1) as (o & st' & -> & Hf' & Hs).
        ends_in. exact Hs.
    + ends_in. right; right; eauto.
Qed.

(** ** Counting the paths that build, fail or panic *)

Lemma built_or_failed_one w p :
  (List.length (recordOf w p) + List.length (lineOf w p))%nat
  = if returns w p then 1%nat else 0%nat.
Proof.
  unfold recordOf, lineOf, returns.
  destruct (extractExifDataFromImage w p) as [[rec|e]| |]; reflexivity.
Qed.

Lemma built_or_failed_le w paths :
  (List.length (successes w paths) + List.length (failures w paths)
   <= List.length paths)%nat.
Proof.
  unfold successes, failures.
  induction paths as [|p paths IH]; cbn [flat_map List.length]; [lia|].
  rewrite !length_app.
  pose proof (built_or_failed_one w p) as H1.
  destruct (returns w p); lia.
Qed.

Lemma all_return w paths :
  (List.length (successes w paths) + List.length (failures w paths))%nat
  = List.length paths ->
  forallb (returns w) paths = true.
Proof.
  induction paths as [|p paths IH]; [reflexivity|].
  pose proof (built_or_failed_le w paths) as Hle.
  unfold successes, failures in *. cbn [flat_map List.length forallb].
  rewrite !length_app.
  pose proof (built_or_failed_one w p) as H1.
  destruct (returns w p); intros H; [apply IH|]; lia.
Qed.

(** ** The fields of a record *)

Lemma tagStep_other f t : isGPSName (TagName t) = false -> tagStep f t = Value f.
Proof.
  unfold isGPSName, tagStep. rewrite !orb_false_iff.
  intros [[[-> ->] ->] ->]. reflexivity.
Qed.

Lemma tagLoop_other tags :
  Forall (fun t => isGPSName (TagName t) = false) tags ->
  forall f, tagLoop tags f = Value f.
Proof.
  induction 1 as [|t tags Ht _ IH]; intros f; simpl; [reflexivity|].
  rewrite tagStep_other by assumption. simpl. apply IH.
Qed.

Lemma append_empty (a b : string) :
  a ++ b = EmptyString <-> a = EmptyString /\ b = EmptyString.
Proof.
  split.
  - destruct a; simpl; [auto | discriminate].
  - now intros [-> ->].
Qed.

Lemma finalOf_empty : finalOf EmptyString EmptyString = "Not available".
Proof. reflexivity. Qed.

Lemma finalOf_value value direction :
  ~ (value = EmptyString /\ direction = EmptyString) ->
  finalOf value direction = value ++ direction.
Proof.
  intros H. unfold finalOf.
  destruct (String.eqb_spec (value ++ direction) EmptyString) as [E|E];
    [apply append_empty in E; contradiction | reflexivity].
Qed.

Lemma finalOf_nonempty value direction : finalOf value direction <> EmptyString.
Proof.
  unfold finalOf.
  destruct (String.eqb_spec (value ++ direction) EmptyString); [discriminate | assumption].
Qed.

(** ** The walk does not look at the state it starts in *)

Lemma after_initState_l d : after initState d = d.
Proof. destruct d; reflexivity. Qed.

Lemma after_initState_r st : after st initState = st.
Proof.
  destruct st; unfold after; cbn. now rewrite !app_nil_r.
Qed.

Lemma after_assoc a b c : after (after a b) c = after a (after b c).
Proof.
  unfold after; cbn. now rewrite !app_assoc.
Qed.

Lemma blind_ret {A : Type} (a : A) : stateBlind (ret a).
Proof.
  intros st. unfold ret; cbn. now rewrite after_initState_r.
Qed.

Lemma blind_lift {A : Type} (o : Outcome A) : stateBlind (lift o).
Proof.
  intros st. unfold lift; cbn. now rewrite after_initState_r.
Qed.

Lemma blind_log line : stateBlind (log_Println line).
Proof.
  intros st. unfold log_Println, after; cbn. now rewrite !app_nil_r.
Qed.

Lemma blind_append d : stateBlind (appendExifData d).
Proof.
  intros st. unfold appendExifData, after; cbn. now rewrite !app_nil_r.
Qed.

Lemma blind_bind {A B : Type} (c : Proc A) (k : A -> Proc B) :
  stateBlind c -> (forall a, stateBlind (k a)) -> stateBlind (bind c k).
Proof.
  intros Hc Hk st. unfold bind. rewrite (Hc st).
  destruct (c initState) as [[a|msg|code] d]; cbn [fst snd]; try reflexivity.
  rewrite (Hk a (after st d)), (Hk a d). cbn [fst snd].
  now rewrite after_assoc.
Qed.

Lemma blind_walkFn w path fileInfo err : stateBlind (walkFn w path fileInfo err).
Proof.
  unfold walkFn. destruct err as [e|].
  - apply blind_bind; [apply blind_log | intros; apply blind_ret].
  - apply blind_bind; [apply blind_lift|]. intros name.
    apply blind_bind; [|intros; apply blind_ret].
    destruct (hasValidExtension name); [|apply blind_ret].
    apply blind_bind; [apply blind_lift|].
    intros [d|e]; [apply blind_append | apply blind_log].
Qed.

Lemma blind_walkEntries join walk path dirs :
  Forall (fun d => forall p, stateBlind (walk p d)) dirs ->
  stateBlind (walkEntries join walk path dirs).
Proof.
  intros Hall. induction Hall as [|d1 rest Hd _ IH]; [apply blind_ret|].
  rewrite walkEntries_cons. apply blind_bind; [apply Hd|].
  intros [[]|]; first [apply blind_ret | apply IH].
Qed.

Lemma blind_walkDir w d : forall path, stateBlind (walkDir (Join w) (walkFn w) path d).
Proof.
  induction d as [name|name dirs readErr IH] using DirEntry_ind; intros path;
    rewrite walkDir_eq; (apply blind_bind; [apply blind_walkFn|]);
    intros [e|]; try apply blind_ret.
  destruct readErr as [msg|]; [|now apply blind_walkEntries].
  apply blind_bind; [apply blind_walkFn|].
  intros [e|]; [apply blind_ret | now apply blind_walkEntries].
Qed.

Lemma blind_aggregate w root : stateBlind (aggregate w root).
Proof.
  unfold aggregate, WalkDir. apply blind_bind.
  - destruct (Lstat w root); [apply blind_walkDir | apply blind_walkFn].
  - intros [[]|]; apply blind_ret.
Qed.


(** * The claims *)

(** C1 (code defect).  A GPSLatitude or GPSLongitude tag whose value is a
    rational slice with fewer than three elements is not ignored: the type
    assertion succeeds and [parseGPSPosition] indexes past the end of the
    slice, so the tag loop, the extraction of the file and the whole run
    end in a run-time panic. *)
Theorem short_rational_slice_panics :
  (forall f,
      tagStep f (mkExifTag GPSLatitude (VRationals []))
      = Panicked "runtime error: index out of range [0] with length 0") /\
  (forall f a,
      tagStep f (mkExifTag GPSLongitude (VRationals [a]))
      = Panicked "runtime error: index out of range [1] with length 1") /\
  (forall f a b,
      tagStep f (mkExifTag GPSLatitude (VRationals [a; b]))
      = Panicked "runtime error: index out of range [2] with length 2") /\
  extractExifDataFromImage Sample.world "short/s.jpg"
  = Panicked "runtime error: index out of range [2] with length 2" /\
  main Sample.world (mkFlags false false "short") initState
  = (Panicked "runtime error: index out of range [2] with length 2", initState).
Proof.
  repeat split; intros; reflexivity.
Qed.

(** C2 (code defect).  For the triplet {(34,1),(5,1),(1200,100)} the
    formatter returns 34, the four bytes C3 82 C2 B0 of the source literal,
    then 5'12.00'': degrees, minutes and seconds are as claimed, but the
    separator is not the degree sign (C2 B0), so the result differs from the
    claimed string. *)
Theorem format_example_has_mojibake_separator :
  parseGPSPosition [mkRational 34 1; mkRational 5 1; mkRational 1200 100]
  = Value ("34" ++ degree_literal ++ "5'12.00''") /\
  "34" ++ degree_literal ++ "5'12.00''" <> "34" ++ degree_sign ++ "5'12.00''" /\
  list_ascii_of_string degree_literal
  = map ascii_of_nat [195; 130; 194; 176]%nat.
Proof.
  repeat split; try reflexivity. discriminate.
Qed.

(** C3 (code defect).  For every triplet whose three denominators are zero
    the formatter returns, without any fault, 0, the four bytes C3 82 C2 B0,
    then 0'0'': each component renders as 0 and nothing is divided, but the
    separator is not the degree sign, so the result is not the claimed
    string. *)
Theorem zero_denominators_render_zero :
  forall n0 n1 n2 : N,
    parseGPSPosition [mkRational n0 0; mkRational n1 0; mkRational n2 0]
    = Value ("0" ++ degree_literal ++ "0'0''") /\
    "0" ++ degree_literal ++ "0'0''" <> "0" ++ degree_sign ++ "0'0''".
Proof.
  intros; split; [reflexivity | discriminate].
Qed.

(** C4.  Every record [extractExifDataFromImage] builds comes from the tag
    fields [f] of the file: on each axis the field is "Not available" when
    value and direction are both empty and the value followed by the
    direction otherwise; the two axes are treated alike and independently;
    the fields are never empty; and when none of the four GPS tags is among
    the tags both fields are "Not available". *)
Theorem record_fields_sentinel_or_value :
  forall (w : World) (path : string) (rec : exifData),
    extractExifDataFromImage w path = Value (Ok rec) ->
    exists data raw tags f,
      ReadFile w path = Ok data /\
      SearchAndExtractExif w data = Ok raw /\
      GetFlatExifDataUniversalSearch w raw = Ok tags /\
      tagLoop tags noFields = Value f /\
      FilePath rec = path /\
      (latitudeValue f = EmptyString /\ latitudeDirection f = EmptyString ->
       Latitude rec = "Not available") /\
      (~ (latitudeValue f = EmptyString /\ latitudeDirection f = EmptyString) ->
       Latitude rec = latitudeValue f ++ latitudeDirection f) /\
      (longitudeValue f = EmptyString /\ longitudeDirection f = EmptyString ->
       Longitude rec = "Not available") /\
      (~ (longitudeValue f = EmptyString /\ longitudeDirection f = EmptyString) ->
       Longitude rec = longitudeValue f ++ longitudeDirection f) /\
      Latitude rec <> EmptyString /\
      Longitude rec <> EmptyString /\
      (Forall (fun t => isGPSName (TagName t) = false) tags ->
       Latitude rec = "Not available" /\ Longitude rec = "Not available").
Proof.
  intros w path rec. unfold extractExifDataFromImage.
  destruct (ReadFile w path) as [data|] eqn:Hread; [|discriminate].
  destruct (SearchAndExtractExif w data) as [raw|[]] eqn:Hsearch; try discriminate.
  destruct (GetFlatExifDataUniversalSearch w raw) as [tags|] eqn:Hflat; [|discriminate].
  destruct (tagLoop tags noFields) as [f| |] eqn:Hloop; simpl; try discriminate.
  intros H. injection H as <-. simpl.
  exists data, raw, tags, f.
  do 5 (split; [first [assumption | reflexivity]|]).
  split; [intros [-> ->]; apply finalOf_empty|].
  split; [apply finalOf_value|].
  split; [intros [-> ->]; apply finalOf_empty|].
  split; [apply finalOf_value|].
  split; [apply finalOf_nonempty|].
  split; [apply finalOf_nonempty|].
  intros Hother. rewrite (tagLoop_other tags Hother) in Hloop.
  injection Hloop as <-. split; reflexivity.
Qed.

(** The record of images/a.jpg in the sample world. *)
Lemma record_fields_sentinel_or_value_witness :
  exists data raw tags f,
    ReadFile Sample.world "images/a.jpg" = Ok data /\
    SearchAndExtractExif Sample.world data = Ok raw /\
    GetFlatExifDataUniversalSearch Sample.world raw = Ok tags /\
    tagLoop tags noFields = Value f /\
    FilePath (mkExifData "images/a.jpg"
                         ("34" ++ degree_literal ++ "5'12.00''N")
                         ("118" ++ degree_literal ++ "14'0''W")) = "images/a.jpg" /\
    (latitudeValue f = EmptyString /\ latitudeDirection f = EmptyString ->
     "34" ++ degree_literal ++ "5'12.00''N" = "Not available") /\
    (~ (latitudeValue f = EmptyString /\ latitudeDirection f = EmptyString) ->
     "34" ++ degree_literal ++ "5'12.00''N" = latitudeValue f ++ latitudeDirection f) /\
    (longitudeValue f = EmptyString /\ longitudeDirection f = EmptyString ->
     "118" ++ degree_literal ++ "14'0''W" = "Not available") /\
    (~ (longitudeValue f = EmptyString /\ longitudeDirection f = EmptyString) ->
     "118" ++ degree_literal ++ "14'0''W" = longitudeValue f ++ longitudeDirection f) /\
    "34" ++ degree_literal ++ "5'12.00''N" <> EmptyString /\
    "118" ++ degree_literal ++ "14'0''W" <> EmptyString /\
    (Forall (fun t => isGPSName (TagName t) = false) tags ->
     "34" ++ degree_literal ++ "5'12.00''N" = "Not available" /\
     "118" ++ degree_literal ++ "14'0''W" = "Not available").
Proof.
  apply (record_fields_sentinel_or_value Sample.world "images/a.jpg"
           (mkExifData "images/a.jpg"
                       ("34" ++ degree_literal ++ "5'12.00''N")
                       ("118" ++ degree_literal ++ "14'0''W"))).
  reflexivity.
Defined.

(** The part of fault isolation that holds: in a readable directory tree
    whose entries with an allowed extension are three, of which one fails
    with an error returned by the extraction and two build, the walk runs to
    its end: the collection is exactly the two records in visitation order,
    exactly one line (the failure) is logged, and [main] goes on to write
    the reports from these two records. *)
Theorem aggregate_isolates_corrupt_image :
  forall (w : World) (root : string) (t : DirEntry),
    Lstat w root = Ok t ->
    readable t = true ->
    List.length (eligiblePaths w root t) = 3%nat ->
    List.length (failures w (eligiblePaths w root t)) = 1%nat ->
    List.length (successes w (eligiblePaths w root t)) = 2%nat ->
    exists r1 r2 line,
      successes w (eligiblePaths w root t) = [r1; r2] /\
      failures w (eligiblePaths w root t) = [line] /\
      aggregate w root initState = (Value None, mkState [r1; r2] [line] []) /\
      forall fl, directoryPath fl = root ->
                 main w fl initState
                 = (if htmlFlag fl && negb (csvFlag fl) then writeToHTML w [r1; r2]
                    else if negb (htmlFlag fl) && csvFlag fl then writeToCSV w [r1; r2]
                    else (writeToCSV w [r1; r2] ;;; writeToHTML w [r1; r2])%proc)
                     (mkState [r1; r2] [line] []).
Proof.
  intros w root t Hstat Hread Hn Hf Hs.
  assert (Hret : forallb (returns w) (eligiblePaths w root t) = true)
    by (apply all_return; lia).
  destruct (successes w (eligiblePaths w root t)) as [|r1 [|r2 [|]]] eqn:Es;
    try discriminate.
  destruct (failures w (eligiblePaths w root t)) as [|line [|]] eqn:Ef;
    try discriminate.
  assert (Hagg : aggregate w root initState = (Value None, mkState [r1; r2] [line] [])).
  { unfold aggregate, WalkDir, bind. rewrite Hstat.
    rewrite (walkDir_readable w t root initState Hread Hret).
    unfold afterVisits. rewrite Es, Ef. reflexivity. }
  exists r1, r2, line. repeat split; try assumption.
  intros fl <-. unfold main, bind. rewrite Hagg. reflexivity.
Qed.

(** The sample tree: a.jpg and sub/b.jpeg build, bad.png has no EXIF data. *)
Lemma aggregate_isolates_corrupt_image_witness :
  exists r1 r2 line,
    successes Sample.world (eligiblePaths Sample.world "images" Sample.tree) = [r1; r2] /\
    failures Sample.world (eligiblePaths Sample.world "images" Sample.tree) = [line] /\
    aggregate Sample.world "images" initState
    = (Value None, mkState [r1; r2] [line] []) /\
    forall fl, directoryPath fl = "images" ->
               main Sample.world fl initState
               = (if htmlFlag fl && negb (csvFlag fl)
                  then writeToHTML Sample.world [r1; r2]
                  else if negb (htmlFlag fl) && csvFlag fl
                       then writeToCSV Sample.world [r1; r2]
                       else (writeToCSV Sample.world [r1; r2] ;;;
                             writeToHTML Sample.world [r1; r2])%proc)
                   (mkState [r1; r2] [line] []).
Proof.
  apply (aggregate_isolates_corrupt_image Sample.world "images" Sample.tree);
    reflexivity.
Defined.

(** C5 (code defect).  A corrupt image does abort the scan when its
    corruption is a GPSLatitude (or GPSLongitude) tag with fewer than three
    rationals.  In the directory mixed, with a.jpg and b.jpeg valid and s.jpg
    between them carrying such a tag, the extraction of s.jpg panics; the
    panic is not recovered by the callback, so the walk and [main] end in it:
    nothing is logged for s.jpg, b.jpeg is never visited, no collection is
    returned and no report is written. *)
Theorem panicking_image_aborts_the_scan :
  readable Faulty.tree = true /\
  eligiblePaths Faulty.world "mixed" Faulty.tree
  = ["mixed/a.jpg"; "mixed/s.jpg"; "mixed/b.jpeg"] /\
  extractExifDataFromImage Faulty.world "mixed/a.jpg"
  = Value (Ok (mkExifData "mixed/a.jpg"
                          ("34" ++ degree_literal ++ "5'12.00''N")
                          ("118" ++ degree_literal ++ "14'0''W"))) /\
  extractExifDataFromImage Faulty.world "mixed/b.jpeg"
  = Value (Ok (mkExifData "mixed/b.jpeg" "Not available" "Not available")) /\
  extractExifDataFromImage Faulty.world "mixed/s.jpg"
  = Panicked "runtime error: index out of range [2] with length 2" /\
  aggregate Faulty.world "mixed" initState
  = (Panicked "runtime error: index out of range [2] with length 2",
     mkState [mkExifData "mixed/a.jpg"
                         ("34" ++ degree_literal ++ "5'12.00''N")
                         ("118" ++ degree_literal ++ "14'0''W")]
             [] []) /\
  fst (main Faulty.world (mkFlags false false "mixed") initState)
  = Panicked "runtime error: index out of range [2] with length 2" /\
  logged (snd (main Faulty.world (mkFlags false false "mixed") initState)) = [] /\
  files (snd (main Faulty.world (mkFlags false false "mixed") initState)) = [].
Proof.
  repeat split; reflexivity.
Qed.

(** C6 (code defect).  When [exif-data.csv] cannot be created, [createFile]
    logs the error with [log.Fatalf], which exits the process with status 1:
    [writeToCSV] never reaches its own error branch, [writeToHTML] is not
    run and no report at all is written. *)
Theorem failed_csv_creation_exits :
  (forall data st,
      (writeToCSV Sample.worldCsvDenied data ;;;
       writeToHTML Sample.worldCsvDenied data)%proc st
      = (Exited 1,
         withLine st "failed to create file: open exif-data.csv: permission denied")) /\
  fst (main Sample.worldCsvDenied Sample.defaultFlags initState) = Exited 1 /\
  files (snd (main Sample.worldCsvDenied Sample.defaultFlags initState)) = [] /\
  map fst (files (snd (main Sample.world Sample.defaultFlags initState)))
  = ["exif-data.csv"; "exif-data.html"].
Proof.
  repeat split; intros; reflexivity.
Qed.

(** C7.  A name passes [hasValidExtension] exactly when it is some string
    followed by one of .jpeg, .jpg, .png, .gif, compared byte for byte:
    photo.JPG does not pass and photo.jpg does.  The callback builds a record
    for an entry exactly when its name passes; otherwise it leaves the state
    as it is. *)
Theorem hasValidExtension_exact_suffix :
  (forall name : string,
      hasValidExtension name = true <->
      exists ext p, In ext [".jpeg"; ".jpg"; ".png"; ".gif"] /\ name = p ++ ext) /\
  hasValidExtension "photo.JPG" = false /\
  hasValidExtension "photo.jpg" = true /\
  (forall (w : World) (path : string) (d : DirEntry) (st : State),
      walkFn w path (Some d) None st =
      if hasValidExtension (Name d) then
        match extractExifDataFromImage w path with
        | Value (Ok rec) => (Value None, withRecord st rec)
        | Value (Err e) => (Value None, withLine st (Error e))
        | Panicked msg => (Panicked msg, st)
        | Exited code => (Exited code, st)
        end
      else (Value None, st)).
Proof.
  split; [|split; [reflexivity | split; [reflexivity | apply walkFn_entry]]].
  intros name. unfold hasValidExtension. rewrite hasSuffixIn_spec. split.
  - intros (ext & Hin & Hs). apply HasSuffix_spec in Hs as [p Hp]. eauto.
  - intros (ext & p & Hin & Hp). exists ext. split; [exact Hin|].
    apply HasSuffix_spec. eauto.
Qed.

(** C8.  When the root path does not exist ([os.Lstat] fails), the walk
    returns that error, nothing is collected, [main] logs and returns, and
    neither exif-data.csv nor exif-data.html is created. *)
Theorem missing_root_writes_no_report :
  forall (w : World) (fl : Flags) (msg : string),
    Lstat w (directoryPath fl) = Err msg ->
    exists st,
      aggregate w (directoryPath fl) initState = (Value (Some (PathError msg)), st) /\
      exifDataArr st = [] /\
      main w fl initState = (Value tt, withLine st msg) /\
      files (snd (main w fl initState)) = [].
Proof.
  intros w fl msg Hstat.
  assert (Hagg : aggregate w (directoryPath fl) initState
                 = (Value (Some (PathError msg)),
                    withLine initState
                      ("error while walking directory: " ++ directoryPath fl
                       ++ ", with error: " ++ msg))).
  { unfold aggregate, WalkDir, bind. rewrite Hstat, walkFn_error. reflexivity. }
  eexists. split; [exact Hagg|]. split; [reflexivity|].
  assert (Hmain : main w fl initState
                  = (Value tt,
                     withLine (withLine initState
                                 ("error while walking directory: " ++ directoryPath fl
                                  ++ ", with error: " ++ msg)) msg)).
  { unfold main, bind. rewrite Hagg. reflexivity. }
  split; [exact Hmain|]. rewrite Hmain. reflexivity.
Qed.

(** The sample world has no directory called nowhere. *)
Lemma missing_root_writes_no_report_witness :
  exists st,
    aggregate Sample.world "nowhere" initState
    = (Value (Some (PathError "lstat nowhere: no such file or directory")), st) /\
    exifDataArr st = [] /\
    main Sample.world (mkFlags false true "nowhere") initState
    = (Value tt, withLine st "lstat nowhere: no such file or directory") /\
    files (snd (main Sample.world (mkFlags false true "nowhere") initState)) = [].
Proof.
  apply (missing_root_writes_no_report Sample.world (mkFlags false true "nowhere")
           "lstat nowhere: no such file or directory").
  reflexivity.
Defined.



(** C10.  The callback returns every error the walk hands it.  So when any
    directory of the tree, at any depth, cannot be read, the walk does not
    run to its end: it returns the read error (or an extraction has
    panicked before), [main] writes neither report, and the records
    collected so far are dropped with the run. *)
Theorem walk_error_aborts_without_report :
  forall (w : World) (fl : Flags) (t : DirEntry),
    Lstat w (directoryPath fl) = Ok t ->
    hasReadErr t = true ->
    (forall path fileInfo e st,
        fst (walkFn w path fileInfo (Some e) st) = Value (Some e)) /\
    files (snd (main w fl initState)) = [] /\
    ((exists msg st,
         aggregate w (directoryPath fl) initState = (Value (Some (PathError msg)), st) /\
         main w fl initState = (Value tt, withLine st msg)) \/
     (exists msg st,
         aggregate w (directoryPath fl) initState = (Panicked msg, st) /\
         main w fl initState = (Panicked msg, st))).
Proof.
  intros w fl t Hstat Herr.
  split; [reflexivity|].
  destruct (walkDir_outcome w t (directoryPath fl) initState)
    as (o & st & Hwalk & Hfiles & Hshape).
  rewrite Herr in Hshape.
  destruct Hshape as [[_ Hno] | [[msg ->] | [msg ->]]]; [discriminate| |].
  - assert (Hagg : aggregate w (directoryPath fl) initState
                   = (Value (Some (PathError msg)), st)).
    { unfold aggregate, WalkDir, bind. rewrite Hstat, Hwalk. reflexivity. }
    assert (Hmain : main w fl initState = (Value tt, withLine st msg)).
    { unfold main, bind. rewrite Hagg. reflexivity. }
    split; [rewrite Hmain; exact Hfiles | left; eauto].
  - assert (Hagg : aggregate w (directoryPath fl) initState = (Panicked msg, st)).
    { unfold aggregate, WalkDir, bind. rewrite Hstat, Hwalk. reflexivity. }
    assert (Hmain : main w fl initState = (Panicked msg, st)).
    { unfold main, bind. rewrite Hagg. reflexivity. }
    split; [rewrite Hmain; exact Hfiles | right; eauto].
Qed.

(** The tree locked: one image, then a directory that cannot be read. *)
Lemma walk_error_aborts_without_report_witness :
  (forall path fileInfo e st,
      fst (walkFn Sample.world path fileInfo (Some e) st) = Value (Some e)) /\
  files (snd (main Sample.world (mkFlags false false "locked") initState)) = [] /\
  ((exists msg st,
       aggregate Sample.world "locked" initState = (Value (Some (PathError msg)), st) /\
       main Sample.world (mkFlags false false "locked") initState
       = (Value tt, withLine st msg)) \/
   (exists msg st,
       aggregate Sample.world "locked" initState = (Panicked msg, st) /\
       main Sample.world (mkFlags false false "locked") initState = (Panicked msg, st))).
Proof.
  apply (walk_error_aborts_without_report Sample.world (mkFlags false false "locked")
           (Dir "locked"
                [File "a.jpg";
                 Dir "private" [] (Some "open locked/private: permission denied")]
                None));
    reflexivity.
Defined.


(** * Further properties of the code *)

(** ** parseGPSPosition and the tag loop *)

Ltac by_tag_name name :=
  destruct (String.eqb_spec name GPSLatitudeRef) as [->|?];
  [|destruct (String.eqb_spec name GPSLatitude) as [->|?];
    [|destruct (String.eqb_spec name GPSLongitudeRef) as [->|?];
      [|destruct (String.eqb_spec name GPSLongitude) as [->|?]]]].

Lemma hasByte_append c (a b : string) :
  hasByte c (a ++ b) = hasByte c a || hasByte c b.
Proof.
  induction a as [|x a IH]; simpl; [reflexivity|].
  now rewrite IH, orb_assoc.
Qed.

Lemma parseGPSPosition_three a b c rest :
  exists pos,
    parseGPSPosition (a :: b :: c :: rest) = Value pos /\
    hasByte separatorByte pos = true.
Proof.
  unfold parseGPSPosition, index; cbn [nth_error obind].
  eexists; split; [reflexivity|].
  destruct (negb (Denominator a =? 0)%N), (negb (Denominator b =? 0)%N),
    (negb (Denominator c =? 0)%N);
    rewrite !hasByte_append;
    replace (hasByte separatorByte degree_literal) with true by reflexivity;
    rewrite ?orb_true_r; reflexivity.
Qed.

Lemma parseGPSPosition_short l :
  (List.length l < 3)%nat -> exists msg, parseGPSPosition l = Panicked msg.
Proof.
  destruct l as [|a [|b [|c rest]]]; simpl; intros H; try lia;
    unfold parseGPSPosition, index; cbn [nth_error obind]; eauto.
Qed.

(** X1.  [parseGPSPosition] panics exactly on slices of fewer than three
    elements; on a longer slice it returns a string, and elements after the
    third play no part in it. *)
Theorem parseGPSPosition_panics_iff_short :
  (forall l,
      (exists msg, parseGPSPosition l = Panicked msg) <-> (List.length l < 3)%nat) /\
  (forall a b c rest,
      parseGPSPosition (a :: b :: c :: rest) = parseGPSPosition [a; b; c] /\
      exists pos, parseGPSPosition [a; b; c] = Value pos).
Proof.
  split.
  - intros l. split; [|apply parseGPSPosition_short].
    destruct l as [|a [|b [|c rest]]]; simpl; try lia.
    destruct (parseGPSPosition_three a b c rest) as (pos & -> & _).
    intros [msg H]; discriminate H.
  - intros a b c rest. split; [reflexivity|].
    destruct (parseGPSPosition_three a b c []) as (pos & H & _). eauto.
Qed.

Lemma tagStep_not_consumed f t : isConsumed t = false -> tagStep f t = Value f.
Proof.
  destruct t as [name v]. unfold isConsumed, tagStep; cbn [TagName TagValue_].
  by_tag_name name; cbn;
    destruct (assert_string v), (assert_rationals v); cbn;
    try discriminate; reflexivity.
Qed.

(** X2.  Tags the loop does not act on leave every field as it was: tags of
    another name, reference tags whose value is not a string and coordinate
    tags whose value is not a rational slice. *)
Theorem tagLoop_skips_unconsumed_tags :
  forall (tags : list ExifTag) (f : gpsFields),
    forallb (fun t => negb (isConsumed t)) tags = true ->
    tagLoop tags f = Value f.
Proof.
  induction tags as [|t tags IH]; intros f H; [reflexivity|].
  cbn [forallb] in H. apply andb_true_iff in H as [Ht Hrest].
  apply negb_true_iff in Ht.
  cbn [tagLoop]. rewrite (tagStep_not_consumed f t Ht). cbn [obind].
  now apply IH.
Qed.

(** A coordinate tag holding a string, a reference tag holding rationals,
    and a tag of another name. *)
Lemma tagLoop_skips_unconsumed_tags_witness :
  tagLoop [mkExifTag GPSLatitude (VString "34.1");
           mkExifTag GPSLongitudeRef (VRationals [mkRational 1 1]);
           mkExifTag "Make" (VString "Canon")]
          (mkGpsFields "N" "E" "1" "2")
  = Value (mkGpsFields "N" "E" "1" "2").
Proof.
  apply (tagLoop_skips_unconsumed_tags
           [mkExifTag GPSLatitude (VString "34.1");
            mkExifTag GPSLongitudeRef (VRationals [mkRational 1 1]);
            mkExifTag "Make" (VString "Canon")]
           (mkGpsFields "N" "E" "1" "2")).
  reflexivity.
Defined.

Lemma tagLoop_append l1 l2 f :
  tagLoop (l1 ++ l2)%list f = obind (tagLoop l1 f) (tagLoop l2).
Proof.
  revert f. induction l1 as [|t l1 IH]; intros f; [reflexivity|].
  cbn [app tagLoop]. destruct (tagStep f t); cbn [obind]; [apply IH | reflexivity..].
Qed.

(** X3.  Later tags overwrite earlier ones: after any tags that the loop
    gets through, a further reference tag with a string sets its direction
    and a further coordinate tag with three rationals sets its value to the
    formatted triplet, whatever was there, and the other three fields keep
    what the earlier tags left. *)
Theorem tagLoop_last_write_wins :
  forall (tags : list ExifTag) (f f' : gpsFields) (s : string) (a b c : Rational),
    tagLoop tags f = Value f' ->
    tagLoop (tags ++ [mkExifTag GPSLatitudeRef (VString s)])%list f
    = Value (mkGpsFields s (longitudeDirection f')
                         (latitudeValue f') (longitudeValue f')) /\
    tagLoop (tags ++ [mkExifTag GPSLongitudeRef (VString s)])%list f
    = Value (mkGpsFields (latitudeDirection f') s
                         (latitudeValue f') (longitudeValue f')) /\
    exists pos,
      parseGPSPosition [a; b; c] = Value pos /\
      tagLoop (tags ++ [mkExifTag GPSLatitude (VRationals [a; b; c])])%list f
      = Value (mkGpsFields (latitudeDirection f') (longitudeDirection f')
                           pos (longitudeValue f')) /\
      tagLoop (tags ++ [mkExifTag GPSLongitude (VRationals [a; b; c])])%list f
      = Value (mkGpsFields (latitudeDirection f') (longitudeDirection f')
                           (latitudeValue f') pos).
Proof.
  intros tags f f' s a b c H.
  rewrite !tagLoop_append, H. cbn [obind].
  split; [reflexivity|]. split; [reflexivity|].
  destruct (parseGPSPosition_three a b c []) as (pos & Hpos & _).
  exists pos. split; [exact Hpos|].
  unfold tagLoop, tagStep; cbn [TagName TagValue_ assert_rationals].
  replace (GPSLatitude =? GPSLatitudeRef) with false by reflexivity.
  replace (GPSLatitude =? GPSLatitude) with true by reflexivity.
  replace (GPSLongitude =? GPSLatitudeRef) with false by reflexivity.
  replace (GPSLongitude =? GPSLatitude) with false by reflexivity.
  replace (GPSLongitude =? GPSLongitudeRef) with false by reflexivity.
  replace (GPSLongitude =? GPSLongitude) with true by reflexivity.
  rewrite Hpos. split; reflexivity.
Qed.

(** The tags of lat/only.jpg say S, then N: N wins. *)
Lemma tagLoop_last_write_wins_witness :
  tagLoop ([mkExifTag GPSLatitudeRef (VString "S")]
           ++ [mkExifTag GPSLatitudeRef (VString "N")])%list noFields
  = Value (mkGpsFields "N" EmptyString EmptyString EmptyString) /\
  tagLoop ([mkExifTag GPSLatitudeRef (VString "S")]
           ++ [mkExifTag GPSLongitudeRef (VString "N")])%list noFields
  = Value (mkGpsFields "S" "N" EmptyString EmptyString) /\
  exists pos,
    parseGPSPosition [mkRational 1 1; mkRational 2 1; mkRational 3 1] = Value pos /\
    tagLoop ([mkExifTag GPSLatitudeRef (VString "S")]
             ++ [mkExifTag GPSLatitude
                   (VRationals [mkRational 1 1; mkRational 2 1; mkRational 3 1])])%list
            noFields
    = Value (mkGpsFields "S" EmptyString pos EmptyString) /\
    tagLoop ([mkExifTag GPSLatitudeRef (VString "S")]
             ++ [mkExifTag GPSLongitude
                   (VRationals [mkRational 1 1; mkRational 2 1; mkRational 3 1])])%list
            noFields
    = Value (mkGpsFields "S" EmptyString EmptyString pos).
Proof.
  apply (tagLoop_last_write_wins [mkExifTag GPSLatitudeRef (VString "S")]
           noFields (mkGpsFields "S" EmptyString EmptyString EmptyString) "N"
           (mkRational 1 1) (mkRational 2 1) (mkRational 3 1)).
  reflexivity.
Defined.

Lemma tagStep_short f t :
  isShortCoordinate t = true -> exists msg, tagStep f t = Panicked msg.
Proof.
  destruct t as [name v]. unfold isShortCoordinate, tagStep; cbn [TagName TagValue_].
  by_tag_name name; cbn; try discriminate;
    destruct (assert_rationals v) as [l|]; try discriminate;
    intros H; apply Nat.leb_le in H;
    assert (Hl : (List.length l < 3)%nat) by lia;
    destruct (parseGPSPosition_short l Hl) as [msg ->]; cbn; eauto.
Qed.

Lemma tagStep_long f t :
  isShortCoordinate t = false -> exists f', tagStep f t = Value f'.
Proof.
  destruct t as [name v]. unfold isShortCoordinate, tagStep; cbn [TagName TagValue_].
  by_tag_name name; cbn;
    try (destruct (assert_string v); eauto);
    try (destruct (assert_rationals v) as [[|a [|b [|c rest]]]|]; cbn;
         try discriminate; eauto;
         intros _; destruct (parseGPSPosition_three a b c rest) as (pos & -> & _);
         cbn; eauto).
Qed.

Lemma tagLoop_panics_iff tags :
  forall f,
    if existsb isShortCoordinate tags
    then exists msg, tagLoop tags f = Panicked msg
    else exists f', tagLoop tags f = Value f'.
Proof.
  induction tags as [|t tags IH]; intros f; cbn [existsb tagLoop]; [eauto|].
  destruct (isShortCoordinate t) eqn:Ht; cbn [orb].
  - destruct (tagStep_short f t Ht) as [msg ->]. cbn. eauto.
  - destruct (tagStep_long f t Ht) as [f1 ->]. cbn [obind]. apply IH.
Qed.

(** X4.  Once a file has been read and its tags flattened, the extraction
    panics exactly when some GPSLatitude or GPSLongitude tag holds a rational
    slice of fewer than three elements, wherever it stands among the tags;
    otherwise it returns a record. *)
Theorem extract_panics_iff_short_coordinate :
  forall (w : World) (path : string) data raw tags,
    ReadFile w path = Ok data ->
    SearchAndExtractExif w data = Ok raw ->
    GetFlatExifDataUniversalSearch w raw = Ok tags ->
    if existsb isShortCoordinate tags
    then exists msg, extractExifDataFromImage w path = Panicked msg
    else exists rec, extractExifDataFromImage w path = Value (Ok rec).
Proof.
  intros w path data raw tags Hread Hsearch Hflat.
  unfold extractExifDataFromImage. rewrite Hread, Hsearch, Hflat.
  pose proof (tagLoop_panics_iff tags noFields) as H.
  destruct (existsb isShortCoordinate tags).
  - destruct H as [msg ->]. cbn. eauto.
  - destruct H as [f ->]. cbn. eauto.
Qed.

(** short/s.jpg carries a GPSLatitude of two rationals. *)
Lemma extract_panics_iff_short_coordinate_witness :
  exists msg, extractExifDataFromImage Sample.world "short/s.jpg" = Panicked msg.
Proof.
  apply (extract_panics_iff_short_coordinate Sample.world "short/s.jpg"
           Sample.bytesShort Sample.bytesShort
           [mkExifTag GPSLatitude (VRationals [mkRational 34 1; mkRational 5 1])]);
    reflexivity.
Defined.

Lemma tagStep_other_axis f t f' :
  tagStep f t = Value f' ->
  (isLongitudeName (TagName t) = false ->
   longitudeValue f' = longitudeValue f /\ longitudeDirection f' = longitudeDirection f) /\
  (isLatitudeName (TagName t) = false ->
   latitudeValue f' = latitudeValue f /\ latitudeDirection f' = latitudeDirection f).
Proof.
  destruct t as [name v].
  unfold isLongitudeName, isLatitudeName, tagStep; cbn [TagName TagValue_].
  by_tag_name name; cbn;
    try (destruct (assert_string v));
    try (destruct (assert_rationals v) as [l|]; [destruct (parseGPSPosition l)|]);
    cbn; intros H; try discriminate H; injection H as <-;
    split; intros E; try discriminate E; cbn; auto.
Qed.

Lemma tagLoop_other_axis tags :
  forall f f',
    tagLoop tags f = Value f' ->
    (forallb (fun t => negb (isLongitudeName (TagName t))) tags = true ->
     longitudeValue f' = longitudeValue f /\ longitudeDirection f' = longitudeDirection f) /\
    (forallb (fun t => negb (isLatitudeName (TagName t))) tags = true ->
     latitudeValue f' = latitudeValue f /\ latitudeDirection f' = latitudeDirection f).
Proof.
  induction tags as [|t tags IH]; intros f f' H; cbn [tagLoop forallb] in *.
  - injection H as <-. auto.
  - destruct (tagStep f t) as [f1| |] eqn:Hstep; cbn [obind] in H; try discriminate H.
    destruct (tagStep_other_axis f t f1 Hstep) as [Hlon Hlat].
    destruct (IH f1 f' H) as [IHlon IHlat].
    split; intros E; apply andb_true_iff in E as [E1 E2];
      apply negb_true_iff in E1.
    + destruct (Hlon E1) as [A B], (IHlon E2) as [C D]. split; congruence.
    + destruct (Hlat E1) as [A B], (IHlat E2) as [C D]. split; congruence.
Qed.

(** X5.  The axes do not touch each other: a record built from tags none of
    which is named GPSLongitude or GPSLongitudeRef has the longitude
    "Not available", whatever its latitude tags are, and likewise with the
    axes exchanged. *)
Theorem missing_axis_is_not_available :
  forall (w : World) (path : string) data raw tags rec,
    ReadFile w path = Ok data ->
    SearchAndExtractExif w data = Ok raw ->
    GetFlatExifDataUniversalSearch w raw = Ok tags ->
    extractExifDataFromImage w path = Value (Ok rec) ->
    (forallb (fun t => negb (isLongitudeName (TagName t))) tags = true ->
     Longitude rec = "Not available") /\
    (forallb (fun t => negb (isLatitudeName (TagName t))) tags = true ->
     Latitude rec = "Not available").
Proof.
  intros w path data raw tags rec Hread Hsearch Hflat.
  unfold extractExifDataFromImage. rewrite Hread, Hsearch, Hflat.
  destruct (tagLoop tags noFields) as [f| |] eqn:Hloop; cbn [obind]; try discriminate.
  intros H. injection H as <-. cbn [Latitude Longitude].
  destruct (tagLoop_other_axis tags noFields f Hloop) as [Hlon Hlat].
  split; intros E.
  - destruct (Hlon E) as [-> ->]. reflexivity.
  - destruct (Hlat E) as [-> ->]. reflexivity.
Qed.

(** lat/only.jpg has latitude tags and a Model tag. *)
Lemma missing_axis_is_not_available_witness :
  (forallb (fun t => negb (isLongitudeName (TagName t))) Cases.latTags = true ->
   Longitude (mkExifData "lat/only.jpg" ("12" ++ degree_literal ++ "30'22.50''N")
                         "Not available")
   = "Not available") /\
  (forallb (fun t => negb (isLatitudeName (TagName t))) Cases.latTags = true ->
   Latitude (mkExifData "lat/only.jpg" ("12" ++ degree_literal ++ "30'22.50''N")
                        "Not available")
   = "Not available").
Proof.
  apply (missing_axis_is_not_available Cases.world "lat/only.jpg"
           Cases.bytesLat Cases.bytesLat Cases.latTags
           (mkExifData "lat/only.jpg" ("12" ++ degree_literal ++ "30'22.50''N")
                       "Not available"));
    reflexivity.
Defined.

Lemma parseGPSPosition_value l pos :
  parseGPSPosition l = Value pos -> hasByte separatorByte pos = true.
Proof.
  destruct l as [|a [|b [|c rest]]]; try discriminate.
  destruct (parseGPSPosition_three a b c rest) as (pos' & -> & H).
  now intros [= <-].
Qed.

(** A value field is formatted when some slice formats to it. *)
Lemma tagStep_formatted lat f t f' :
  tagStep f t = Value f' ->
  (isCoordinateOf lat t = true \/ exists l, parseGPSPosition l = Value (valueOf lat f)) ->
  exists l, parseGPSPosition l = Value (valueOf lat f').
Proof.
  destruct t as [name v].
  unfold isCoordinateOf, tagStep, coordinateName, valueOf; cbn [TagName TagValue_].
  by_tag_name name; destruct lat; cbn;
    try (destruct (assert_string v));
    try (destruct (assert_rationals v) as [l|];
         [destruct (parseGPSPosition l) as [pos| |] eqn:Hpos|]);
    cbn; intros H; try discriminate H; injection H as <-; cbn;
    intros [E | E]; try discriminate E; try exact E; eauto;
    apply andb_true_iff in E as [E _]; apply String.eqb_eq in E; contradiction.
Qed.

Lemma tagLoop_formatted lat tags :
  forall f f',
    tagLoop tags f = Value f' ->
    (existsb (isCoordinateOf lat) tags = true \/
     exists l, parseGPSPosition l = Value (valueOf lat f)) ->
    exists l, parseGPSPosition l = Value (valueOf lat f').
Proof.
  induction tags as [|t tags IH]; intros f f' H Hor; cbn [tagLoop existsb] in *.
  - injection H as <-. destruct Hor as [E | E]; [discriminate E | exact E].
  - destruct (tagStep f t) as [f1| |] eqn:Hstep; cbn [obind] in H; try discriminate H.
    apply (IH f1 f' H).
    destruct Hor as [E | E].
    + apply orb_true_iff in E as [E | E]; [|now left].
      right. apply (tagStep_formatted lat f t f1 Hstep). now left.
    + right. apply (tagStep_formatted lat f t f1 Hstep). now right.
Qed.

Lemma finalOf_formatted pos dir :
  hasByte separatorByte pos = true ->
  finalOf pos dir = pos ++ dir /\ pos ++ dir <> "Not available".
Proof.
  intros H.
  assert (Hb : hasByte separatorByte (pos ++ dir) = true)
    by (rewrite hasByte_append, H; reflexivity).
  split.
  - apply finalOf_value. intros [-> _]. discriminate H.
  - intros E. rewrite E in Hb. discriminate Hb.
Qed.

(** X6.  When a GPSLatitude tag holding a rational slice is among the tags
    of a record, the record's latitude is never "Not available": it is the
    formatting of some slice followed by the direction.  The same holds for
    GPSLongitude and the longitude ([lat] chooses the axis). *)
Theorem present_coordinate_is_formatted :
  forall (lat : bool) (w : World) (path : string) data raw tags rec,
    ReadFile w path = Ok data ->
    SearchAndExtractExif w data = Ok raw ->
    GetFlatExifDataUniversalSearch w raw = Ok tags ->
    extractExifDataFromImage w path = Value (Ok rec) ->
    existsb (isCoordinateOf lat) tags = true ->
    fieldOf lat rec <> "Not available" /\
    exists l pos dir,
      parseGPSPosition l = Value pos /\ fieldOf lat rec = pos ++ dir.
Proof.
  intros lat w path data raw tags rec Hread Hsearch Hflat.
  unfold extractExifDataFromImage. rewrite Hread, Hsearch, Hflat.
  destruct (tagLoop tags noFields) as [f| |] eqn:Hloop; cbn [obind]; try discriminate.
  intros H Hex. injection H as <-.
  destruct (tagLoop_formatted lat tags noFields f Hloop (or_introl Hex)) as [l Hl].
  pose proof (parseGPSPosition_value l _ Hl) as Hb.
  destruct lat; cbn [fieldOf valueOf Latitude Longitude] in *.
  - destruct (finalOf_formatted _ (latitudeDirection f) Hb) as [-> Hne].
    split; [exact Hne | eauto].
  - destruct (finalOf_formatted _ (longitudeDirection f) Hb) as [-> Hne].
    split; [exact Hne | eauto].
Qed.

(** lat/only.jpg: latitude tags only, the slice has a fourth element. *)
Lemma present_coordinate_is_formatted_witness :
  fieldOf true (mkExifData "lat/only.jpg" ("12" ++ degree_literal ++ "30'22.50''N")
                           "Not available")
  <> "Not available" /\
  exists l pos dir,
    parseGPSPosition l = Value pos /\
    fieldOf true (mkExifData "lat/only.jpg" ("12" ++ degree_literal ++ "30'22.50''N")
                             "Not available")
    = pos ++ dir.
Proof.
  apply (present_coordinate_is_formatted true Cases.world "lat/only.jpg"
           Cases.bytesLat Cases.bytesLat Cases.latTags);
    reflexivity.
Defined.

(** ** Errors of extractExifDataFromImage *)

(** X7.  The extraction returns an error exactly when reading the file,
    finding the EXIF block or flattening it fails; it then never panics.
    Each failing step has its own message: "error reading from file: " with
    the text of the read error; "no EXIF data found in the file: " when the
    search returns [ErrNoExif] and "error reading exif data from file: "
    when it returns any other error; "error fetching flat exif data from
    rawData: " for the flattening; each followed by the path, then
    ", with error: " and the text of that step's error. *)
Theorem extract_error_iff_decode_fails :
  forall (w : World) (path : string),
    (decodeFails w path = true <->
     exists e, extractExifDataFromImage w path = Value (Err e)) /\
    (forall msg,
        ReadFile w path = Err msg ->
        extractExifDataFromImage w path
        = Value (Err (Errorf ("error reading from file: " ++ path
                              ++ ", with error: " ++ msg)))) /\
    (forall data err,
        ReadFile w path = Ok data ->
        SearchAndExtractExif w data = Err err ->
        extractExifDataFromImage w path
        = Value (Err (Errorf ((match err with
                               | ErrNoExif => "no EXIF data found in the file: "
                               | _ => "error reading exif data from file: "
                               end)
                              ++ path ++ ", with error: " ++ Error err)))) /\
    (forall data raw err,
        ReadFile w path = Ok data ->
        SearchAndExtractExif w data = Ok raw ->
        GetFlatExifDataUniversalSearch w raw = Err err ->
        extractExifDataFromImage w path
        = Value (Err (Errorf ("error fetching flat exif data from rawData: "
                              ++ path ++ ", with error: " ++ Error err)))).
Proof.
  intros w path. unfold decodeFails, extractExifDataFromImage.
  destruct (ReadFile w path) as [data|msg].
  2: { split; [split; eauto|].
       split; [intros ? [= <-]; reflexivity|].
       split; intros; discriminate. }
  destruct (SearchAndExtractExif w data) as [raw|err] eqn:Hsearch.
  2: { split; [split; [destruct err; eauto | reflexivity]|].
       split; [intros; discriminate|].
       split; [|intros ? ? ? [= <-]; rewrite Hsearch; discriminate].
       intros ? ? [= <-]. rewrite Hsearch. intros [= <-].
       destruct err; reflexivity. }
  destruct (GetFlatExifDataUniversalSearch w raw) as [tags|err] eqn:Hflat.
  2: { split; [split; eauto|].
       split; [intros; discriminate|].
       split; [intros ? ? [= <-]; rewrite Hsearch; discriminate|].
       intros ? ? ? [= <-]. rewrite Hsearch. intros [= <-]. rewrite Hflat.
       intros [= <-]. reflexivity. }
  split.
  - destruct (tagLoop tags noFields); cbn [obind];
      (split; [discriminate | intros [e H]; discriminate H]).
  - split; [intros; discriminate|].
    split; [intros ? ? [= <-]; rewrite Hsearch; discriminate|].
    intros ? ? ? [= <-]. rewrite Hsearch. intros [= <-]. rewrite Hflat. discriminate.
Qed.

(** ** What every walk keeps *)

Lemma extends_refl w st : extends w st st.
Proof.
  exists [], []. rewrite !app_nil_r. auto.
Qed.

Lemma extends_trans w st1 st2 st3 :
  extends w st1 st2 -> extends w st2 st3 -> extends w st1 st3.
Proof.
  intros (r1 & l1 & Hr1 & Hl1 & Hf1 & Hg1) (r2 & l2 & Hr2 & Hl2 & Hf2 & Hg2).
  exists (r1 ++ r2)%list, (l1 ++ l2)%list.
  rewrite Hr2, Hr1, Hl2, Hl1, Hf2, Hf1, !app_assoc.
  repeat split. apply Forall_app; auto.
Qed.

Lemma extends_bind w {A B : Type} (c : Proc A) (k : A -> Proc B) :
  (forall st, extends w st (snd (c st))) ->
  (forall a st, extends w st (snd (k a st))) ->
  forall st, extends w st (snd (bind c k st)).
Proof.
  intros Hc Hk st. unfold bind. specialize (Hc st).
  destruct (c st) as [[a|msg|code] st1]; cbn [snd] in *; [|assumption..].
  exact (extends_trans w st st1 _ Hc (Hk a st1)).
Qed.

Lemma extract_good w path rec :
  extractExifDataFromImage w path = Value (Ok rec) -> goodRecord w rec.
Proof.
  intros H. pose proof H as H'. revert H'. unfold extractExifDataFromImage at 1.
  destruct (ReadFile w path) as [data|]; [|discriminate].
  destruct (SearchAndExtractExif w data) as [raw|[]]; try discriminate.
  destruct (GetFlatExifDataUniversalSearch w raw) as [tags|]; [|discriminate].
  destruct (tagLoop tags noFields) as [f| |]; cbn [obind]; try discriminate.
  intros [= <-]. unfold goodRecord; cbn [Latitude Longitude FilePath].
  split; [apply finalOf_nonempty|]. split; [apply finalOf_nonempty | exact H].
Qed.

Lemma walkFn_extends w path fileInfo err st :
  extends w st (snd (walkFn w path fileInfo err st)).
Proof.
  destruct err as [e|].
  - rewrite walkFn_error. cbn [snd].
    exists [], [("error while walking directory: " ++ path
                 ++ ", with error: " ++ Error e)].
    cbn. rewrite app_nil_r. auto.
  - destruct fileInfo as [d|]; [|apply extends_refl].
    rewrite walkFn_entry.
    destruct (hasValidExtension (Name d)); [|apply extends_refl].
    destruct (extractExifDataFromImage w path) as [[rec|e]| |] eqn:Hx;
      cbn [snd]; try apply extends_refl.
    + exists [rec], []. cbn. rewrite app_nil_r.
      repeat split. constructor; [exact (extract_good w path rec Hx) | constructor].
    + exists [], [Error e]. cbn. rewrite app_nil_r. auto.
Qed.

Lemma ret_extends w {A : Type} (a : A) st : extends w st (snd (ret a st)).
Proof. apply extends_refl. Qed.

Lemma walkEntries_extends w path dirs :
  Forall (fun d => forall p st,
              extends w st (snd (walkDir (Join w) (walkFn w) p d st))) dirs ->
  forall st,
    extends w st (snd (walkEntries (Join w) (walkDir (Join w) (walkFn w)) path dirs st)).
Proof.
  intros Hall. induction Hall as [|d1 rest Hd _ IH]; intros st.
  - apply extends_refl.
  - rewrite walkEntries_cons. apply extends_bind; [apply Hd|].
    intros [[]|] st1; first [apply ret_extends | apply IH].
Qed.

Lemma walkDir_extends w d :
  forall path st, extends w st (snd (walkDir (Join w) (walkFn w) path d st)).
Proof.
  induction d as [name|name dirs readErr IH] using DirEntry_ind; intros path st;
    rewrite walkDir_eq; (apply extends_bind; [intros; apply walkFn_extends|]);
    intros [e|] st1; try apply ret_extends.
  destruct readErr as [msg|]; [|now apply walkEntries_extends].
  apply extends_bind; [intros; apply walkFn_extends|].
  intros [e|] st2; [apply ret_extends | now apply walkEntries_extends].
Qed.

Lemma aggregate_extends w root st : extends w st (snd (aggregate w root st)).
Proof.
  unfold aggregate, WalkDir. apply extends_bind.
  - intros st0. destruct (Lstat w root); [apply walkDir_extends | apply walkFn_extends].
  - intros [[]|] st1; apply ret_extends.
Qed.

Lemma aggregate_shape w root st :
  (fst (aggregate w root st) = Value None /\
   exists t, Lstat w root = Ok t /\ hasReadErr t = false) \/
  (exists msg, fst (aggregate w root st) = Value (Some (PathError msg))) \/
  (exists msg, fst (aggregate w root st) = Panicked msg).
Proof.
  unfold aggregate, WalkDir, bind.
  destruct (Lstat w root) as [t|msg].
  - destruct (walkDir_outcome w t root st) as (o & st' & -> & _ & Hs).
    destruct Hs as [[-> Hno] | [[msg ->] | [msg ->]]]; cbn; eauto.
  - rewrite walkFn_error. cbn. eauto.
Qed.

(** X8.  Whatever the tree and the files, and from any state, the walk of
    [main] only appends: the records and log lines already there stay in
    front, no file is created, and every record added has both coordinate
    fields non-empty and is what the extraction returns for its own
    [FilePath].  The walk never exits the process, and it never turns an
    error into a skipped directory: it ends with nil only when the root
    exists and every directory of the tree could be read; otherwise it ends
    with the error of an operating system call or in a panic. *)
Theorem aggregate_only_appends_good_records :
  forall (w : World) (root : string) (st : State),
  exists o recs lines,
    aggregate w root st
    = (o, mkState (exifDataArr st ++ recs)%list (logged st ++ lines)%list (files st)) /\
    Forall (goodRecord w) recs /\
    ((o = Value None /\
      exists t, Lstat w root = Ok t /\ hasReadErr t = false) \/
     (exists msg, o = Value (Some (PathError msg))) \/
     (exists msg, o = Panicked msg)).
Proof.
  intros w root st.
  pose proof (aggregate_extends w root st) as (recs & lines & Hr & Hl & Hf & Hg).
  pose proof (aggregate_shape w root st) as Hs.
  destruct (aggregate w root st) as [o [recs' lines' files']]; cbn [fst snd] in *.
  cbn in Hr, Hl, Hf. subst.
  exists o, recs, lines. auto.
Qed.

Lemma returns_count w paths :
  forallb (returns w) paths = true ->
  (List.length (successes w paths) + List.length (failures w paths))%nat
  = List.length paths.
Proof.
  unfold successes, failures.
  induction paths as [|p paths IH]; cbn [forallb flat_map List.length]; [reflexivity|].
  intros H. apply andb_true_iff in H as [Hp Hrest].
  rewrite !length_app. pose proof (built_or_failed_one w p) as H1.
  rewrite Hp in H1. specialize (IH Hrest). lia.
Qed.

(** X9.  On a tree that can be read everywhere and whose eligible entries
    all return from the extraction, however many they are and however many of
    them fail, the walk ends with nil: the collection is the records of the
    entries that build and the log is the errors of those that fail, each in
    visitation order, so every eligible entry shows up exactly once, as a
    record or as a log line. *)
Theorem aggregate_collects_in_preorder :
  forall (w : World) (root : string) (t : DirEntry),
    Lstat w root = Ok t ->
    readable t = true ->
    forallb (returns w) (eligiblePaths w root t) = true ->
    aggregate w root initState
    = (Value None,
       mkState (successes w (eligiblePaths w root t))
               (failures w (eligiblePaths w root t)) []) /\
    (List.length (successes w (eligiblePaths w root t))
     + List.length (failures w (eligiblePaths w root t)))%nat
    = List.length (eligiblePaths w root t).
Proof.
  intros w root t Hstat Hread Hret. split; [|now apply returns_count].
  unfold aggregate, WalkDir, bind. rewrite Hstat.
  rewrite (walkDir_readable w t root initState Hread Hret). reflexivity.
Qed.

(** The sample tree, in the world where every file can be created. *)
Lemma aggregate_collects_in_preorder_witness :
  aggregate Sample.world "images" initState
  = (Value None,
     mkState (successes Sample.world (eligiblePaths Sample.world "images" Sample.tree))
             (failures Sample.world (eligiblePaths Sample.world "images" Sample.tree))
             []) /\
  (List.length (successes Sample.world (eligiblePaths Sample.world "images" Sample.tree))
   + List.length (failures Sample.world (eligiblePaths Sample.world "images" Sample.tree)))%nat
  = List.length (eligiblePaths Sample.world "images" Sample.tree).
Proof.
  apply (aggregate_collects_in_preorder Sample.world "images" Sample.tree);
    reflexivity.
Defined.

(** ** The reports *)

Lemma aggregate_files w root st o st' :
  aggregate w root st = (o, st') -> files st' = files st.
Proof.
  intros H. pose proof (aggregate_extends w root st) as (_ & _ & _ & _ & Hf & _).
  now rewrite H in Hf.
Qed.





(** ** Names and directories *)

Lemma lastByte_append (p : string) c s :
  lastByte (p ++ String c s) = lastByte (String c s).
Proof.
  induction p as [|x p IH]; [reflexivity|].
  cbn [append]. rewrite <- IH. cbn [lastByte].
  destruct (p ++ String c s) eqn:E; [|reflexivity].
  destruct p; discriminate E.
Qed.

Lemma valid_lastByte name :
  hasValidExtension name = true ->
  lastByte name = Some "g"%char \/ lastByte name = Some "f"%char.
Proof.
  unfold hasValidExtension. rewrite hasSuffixIn_spec.
  intros (ext & Hin & Hs). apply HasSuffix_spec in Hs as [p ->].
  cbn in Hin. destruct Hin as [<- | [<- | [<- | [<- | []]]]];
    rewrite lastByte_append; cbn; auto.
Qed.

(** X12.  The comparison is by bytes, so upper-case extensions never pass:
    whatever precedes them, names ending in .JPG, .JPEG, .PNG or .GIF are
    not eligible. *)
Theorem uppercase_extensions_are_rejected :
  forall stem : string,
    hasValidExtension (stem ++ ".JPG") = false /\
    hasValidExtension (stem ++ ".JPEG") = false /\
    hasValidExtension (stem ++ ".PNG") = false /\
    hasValidExtension (stem ++ ".GIF") = false.
Proof.
  intros stem.
  repeat split;
    match goal with
    | |- hasValidExtension ?n = false =>
        destruct (hasValidExtension n) eqn:E; [|reflexivity];
        apply valid_lastByte in E; rewrite lastByte_append in E;
        destruct E as [E | E]; discriminate E
    end.
Qed.

(** X13.  The callback does not ask whether an entry is a directory: a
    readable directory whose name has an allowed extension is handed to the
    extraction like a file; when reading it fails, that error is logged and
    the walk still goes through the directory's entries. *)
Theorem directory_named_like_image_is_extracted :
  forall (w : World) (path name : string) (dirs : list DirEntry) (st : State)
         (msg : string),
    hasValidExtension name = true ->
    ReadFile w path = Err msg ->
    walkDir (Join w) (walkFn w) path (Dir name dirs None) st
    = walkEntries (Join w) (walkDir (Join w) (walkFn w)) path dirs
        (withLine st ("error reading from file: " ++ path ++ ", with error: " ++ msg)).
Proof.
  intros w path name dirs st msg Hvalid Hread.
  rewrite walkDir_eq. unfold bind at 1. rewrite walkFn_entry.
  cbn [Name]. rewrite Hvalid.
  unfold extractExifDataFromImage. rewrite Hread. reflexivity.
Qed.

(** The directory albums/2024.jpg, holding beach.jpg. *)
Lemma directory_named_like_image_is_extracted_witness :
  walkDir (Join Cases.world) (walkFn Cases.world) "albums/2024.jpg"
          (Dir "2024.jpg" [File "beach.jpg"] None) initState
  = walkEntries (Join Cases.world) (walkDir (Join Cases.world) (walkFn Cases.world))
      "albums/2024.jpg" [File "beach.jpg"]
      (withLine initState
         ("error reading from file: " ++ "albums/2024.jpg" ++ ", with error: "
          ++ "read albums/2024.jpg: is a directory")).
Proof.
  apply (directory_named_like_image_is_extracted Cases.world "albums/2024.jpg"
           "2024.jpg" [File "beach.jpg"] initState
           "read albums/2024.jpg: is a directory");
    reflexivity.
Defined.

Lemma walkDir_unreadable_stops w d path st :
  hasReadErr d = true ->
  fst (walkDir (Join w) (walkFn w) path d st) <> Value None.
Proof.
  intros Herr.
  destruct (walkDir_outcome w d path st) as (o & st' & -> & _ & Hs).
  rewrite Herr in Hs. cbn [fst].
  destruct Hs as [[_ E] | [[msg ->] | [msg ->]]]; [discriminate E | discriminate..].
Qed.

Lemma walkEntries_stops w path d1 rest rest' st :
  hasReadErr d1 = true ->
  walkEntries (Join w) (walkDir (Join w) (walkFn w)) path (d1 :: rest) st
  = walkEntries (Join w) (walkDir (Join w) (walkFn w)) path (d1 :: rest') st.
Proof.
  intros Herr. rewrite !walkEntries_cons. unfold bind.
  pose proof (walkDir_unreadable_stops w d1 (Join w path (Name d1)) st Herr) as Hne.
  destruct (walkDir (Join w) (walkFn w) (Join w path (Name d1)) d1 st)
    as [[[e|]| |] st1]; cbn [fst] in Hne; try reflexivity.
  now destruct Hne.
Qed.

Lemma walkEntries_prefix w path pre l l' :
  (forall st, walkEntries (Join w) (walkDir (Join w) (walkFn w)) path l st
              = walkEntries (Join w) (walkDir (Join w) (walkFn w)) path l' st) ->
  forall st,
    walkEntries (Join w) (walkDir (Join w) (walkFn w)) path (pre ++ l)%list st
    = walkEntries (Join w) (walkDir (Join w) (walkFn w)) path (pre ++ l')%list st.
Proof.
  intros H. induction pre as [|d pre IH]; intros st; [apply H|].
  cbn [app]. rewrite !walkEntries_cons. unfold bind.
  destruct (walkDir (Join w) (walkFn w) (Join w path (Name d)) d st)
    as [[[e|]| |] st1]; try reflexivity.
  apply IH.
Qed.

(** X14.  Nothing is visited after a directory that cannot be read: the
    entries that follow it in its parent, and the entries the failed read
    still listed, make no difference to the outcome, the collection or the
    log of the walk. *)
Theorem nothing_is_visited_after_read_error :
  forall (w : World) (path name : string) (pre : list DirEntry) (d1 : DirEntry)
         (rest rest' : list DirEntry) (st : State),
    hasReadErr d1 = true ->
    walkDir (Join w) (walkFn w) path (Dir name (pre ++ d1 :: rest) None) st
    = walkDir (Join w) (walkFn w) path (Dir name (pre ++ d1 :: rest') None) st /\
    forall (msg : string) (listed listed' : list DirEntry),
      walkDir (Join w) (walkFn w) path (Dir name listed (Some msg)) st
      = walkDir (Join w) (walkFn w) path (Dir name listed' (Some msg)) st.
Proof.
  intros w path name pre d1 rest rest' st Herr. split.
  - rewrite !walkDir_eq. unfold bind. rewrite !walkFn_entry. cbn [Name].
    destruct (hasValidExtension name).
    + destruct (extractExifDataFromImage w path) as [[rec|e]| |]; try reflexivity;
        apply walkEntries_prefix; intros st0; now apply walkEntries_stops.
    + apply walkEntries_prefix; intros st0; now apply walkEntries_stops.
  - intros msg listed listed'.
    rewrite !walkDir_eq. unfold bind. rewrite !walkFn_entry. cbn [Name].
    destruct (hasValidExtension name);
      [destruct (extractExifDataFromImage w path) as [[rec|e]| |]|];
      rewrite ?walkFn_error; reflexivity.
Qed.

(** The tree partial: a.jpg, the unreadable directory locked, then z.jpg. *)
Lemma nothing_is_visited_after_read_error_witness :
  walkDir (Join Cases.world) (walkFn Cases.world) "partial"
          (Dir "partial"
               ([File "a.jpg"]
                ++ Dir "locked" [File "hidden.jpg"]
                       (Some "open partial/locked: permission denied")
                   :: [File "z.jpg"])
               None) initState
  = walkDir (Join Cases.world) (walkFn Cases.world) "partial"
            (Dir "partial"
                 ([File "a.jpg"]
                  ++ Dir "locked" [File "hidden.jpg"]
                         (Some "open partial/locked: permission denied")
                     :: [])
                 None) initState /\
  forall (msg : string) (listed listed' : list DirEntry),
    walkDir (Join Cases.world) (walkFn Cases.world) "partial"
            (Dir "partial" listed (Some msg)) initState
    = walkDir (Join Cases.world) (walkFn Cases.world) "partial"
              (Dir "partial" listed' (Some msg)) initState.
Proof.
  apply (nothing_is_visited_after_read_error Cases.world "partial" "partial"
           [File "a.jpg"]
           (Dir "locked" [File "hidden.jpg"]
                (Some "open partial/locked: permission denied"))
           [File "z.jpg"] [] initState).
  reflexivity.
Defined.

(** X15.  Whenever exif-data.csv is due (any flags but [-html] alone) and
    cannot be created after a walk that ended with nil, the process exits
    with status 1 having logged the creation error: no file at all is
    written, whether or not exif-data.html could have been created. *)
Theorem failed_csv_creation_leaves_no_file :
  forall (w : World) (fl : Flags) (st1 : State) (msg : string),
    aggregate w (directoryPath fl) initState = (Value None, st1) ->
    htmlFlag fl && negb (csvFlag fl) = false ->
    Create w "exif-data.csv" = Some msg ->
    main w fl initState
    = (Exited 1,
       mkState (exifDataArr st1)
               (logged st1 ++ [("failed to create file: " ++ msg)%string])%list
               []).
Proof.
  intros w fl st1 msg Hagg Hflags Hcsv.
  pose proof (aggregate_files w _ _ _ _ Hagg) as Hf.
  destruct st1 as [recs lines fs]. cbn in Hf. subst fs.
  unfold main, bind. rewrite Hagg, Hflags.
  unfold getExifDataArr, writeToCSV, writeToHTML, createFile, bind.
  cbn [exifDataArr logged].
  destruct (negb (htmlFlag fl) && csvFlag fl); rewrite Hcsv; reflexivity.
Qed.

(** The sample tree with [-csv] alone, exif-data.csv denied. *)
Lemma failed_csv_creation_leaves_no_file_witness :
  main Sample.worldCsvDenied (mkFlags false true "images") initState
  = (Exited 1,
     mkState (exifDataArr (snd (aggregate Sample.worldCsvDenied "images" initState)))
             (logged (snd (aggregate Sample.worldCsvDenied "images" initState))
              ++ [("failed to create file: "
                   ++ "open exif-data.csv: permission denied")%string])%list
             []).
Proof.
  apply (failed_csv_creation_leaves_no_file Sample.worldCsvDenied
           (mkFlags false true "images")
           (snd (aggregate Sample.worldCsvDenied "images" initState))
           "open exif-data.csv: permission denied");
    reflexivity.
Defined.

(** X16.  A name of fewer than four bytes is never eligible, and a name of
    exactly four bytes is eligible only if it is one of .jpg, .png, .gif
    itself. *)
Theorem short_names_are_not_eligible :
  forall name : string,
    (length name < 4 -> hasValidExtension name = false) /\
    (length name = 4 -> hasValidExtension name = true ->
     name = ".jpg" \/ name = ".png" \/ name = ".gif").
Proof.
  intros name.
  assert (H : hasValidExtension name = true ->
              exists p ext, In ext allowedExtensions /\ name = p ++ ext).
  { unfold hasValidExtension. rewrite hasSuffixIn_spec.
    intros (ext & Hin & Hs). apply HasSuffix_spec in Hs as [p Hp]. eauto. }
  split.
  - intros Hlen. destruct (hasValidExtension name); [|reflexivity].
    destruct (H eq_refl) as (p & ext & Hin & ->).
    rewrite length_append in Hlen.
    cbn in Hin. destruct Hin as [<- | [<- | [<- | [<- | []]]]]; cbn in Hlen; lia.
  - intros Hlen Hvalid. destruct (H Hvalid) as (p & ext & Hin & ->).
    rewrite length_append in Hlen.
    cbn in Hin. destruct Hin as [<- | [<- | [<- | [<- | []]]]]; cbn in Hlen;
      try lia; (destruct p; [cbn; auto | cbn in Hlen; lia]).
Qed.

(** The three-byte name jpg, and the four-byte name .png. *)
Lemma short_names_are_not_eligible_witness :
  hasValidExtension "jpg" = false /\
  (".png" = ".jpg" \/ ".png" = ".png" \/ ".png" = ".gif").
Proof.
  split.
  - apply (proj1 (short_names_are_not_eligible "jpg")). cbn. lia.
  - apply (proj2 (short_names_are_not_eligible ".png")); reflexivity.
Defined.




(** X18.  The walk of [main] never reads the state it starts in: from any
    state it ends as it does from the empty state, and it appends to the
    records and to the log exactly what it collects and logs there. *)
Theorem walk_ignores_start_state :
  forall (w : World) (root : string) (st : State),
    aggregate w root st
    = (fst (aggregate w root initState),
       mkState (exifDataArr st ++ exifDataArr (snd (aggregate w root initState)))%list
               (logged st ++ logged (snd (aggregate w root initState)))%list
               (files st)).
Proof.
  intros w root st. rewrite (blind_aggregate w root st). f_equal.
  unfold after. f_equal.
  rewrite (aggregate_files w root initState _ _ (surjective_pairing _)).
  cbn. apply app_nil_r.
Qed.
